(** * lysara-calling-bot-node: the join guard, the call life cycle and the
      transcript selection of the server

    The server is an Express application.  Its route handlers are async
    functions that talk to Microsoft Graph through axios and share one
    module-level [Map], [activeCallsByThreadId].  The development below
    embeds the handlers of the current build ("2026-02-24-clean") as programs
    of a small free monad: external requests are the only suspension points,
    the operations on the shared map are synchronous, and [try]/[catch] is a
    combinator.  Values are JavaScript values (the handlers are written
    against untyped JSON), numbers are IEEE binary64. *)

From Stdlib Require Import List String Ascii Bool Arith ZArith Lia Floats.
From Stdlib Require Import Permutation Sorted OrderedTypeEx DecimalString.
Import ListNotations.
Local Open Scope list_scope.
Local Open Scope string_scope.
Set Warnings "-register-all".

(* ================================================================== *)
(** ** JavaScript values *)
(* ================================================================== *)

Inductive JSValue : Type :=
| JUndefined
| JNull
| JBool (b : bool)
| JNum (x : float)
| JStr (s : string)
| JArr (items : list JSValue)
| JObj (fields : list (string * JSValue)).

(** [ToBoolean]: what [if (v)], [!v] and [v || w] test. *)
Definition truthy (v : JSValue) : bool :=
  match v with
  | JUndefined | JNull => false
  | JBool b => b
  | JNum x => negb (PrimFloat.is_zero x || PrimFloat.is_nan x)
  | JStr s => negb (s =? "")
  | JArr _ | JObj _ => true
  end.

Definition nullish (v : JSValue) : bool :=
  match v with
  | JUndefined | JNull => true
  | _ => false
  end.

(** [a || b] and [a ?? b]. *)
Definition js_or (a b : JSValue) : JSValue := if truthy a then a else b.
Definition js_coalesce (a b : JSValue) : JSValue := if nullish a then b else a.

Fixpoint lookup (name : string) (fields : list (string * JSValue)) : JSValue :=
  match fields with
  | [] => JUndefined
  | (k, v) :: rest => if k =? name then v else lookup name rest
  end.

(** [v?.name] for a property name that is neither ["length"] nor an index and
    that no built-in prototype defines (all the names the handlers read are
    of this kind): an own property of an object, [undefined] on everything
    else, and [undefined] again when [v] is [null] or [undefined]. *)
Definition prop (v : JSValue) (name : string) : JSValue :=
  match v with
  | JObj fields => lookup name fields
  | _ => JUndefined
  end.

(** [v?.[0]]. *)
Definition index0 (v : JSValue) : JSValue :=
  match v with
  | JArr (x :: _) => x
  | JObj fields => lookup "0" fields
  | JStr (String c _) => JStr (String c "")
  | _ => JUndefined
  end.

(** [ToBoolean(v.length)], for a [v] that is not nullish. *)
Definition length_truthy (v : JSValue) : bool :=
  match v with
  | JArr items => negb (Nat.eqb (List.length items) 0)
  | JStr s => negb (s =? "")
  | JObj fields => truthy (lookup "length" fields)
  | _ => false
  end.

(** [a === b].  Objects and arrays are compared by reference; every object
    the handlers compare comes out of a different parse (a stored map entry
    against the body of the response at hand, or against a route parameter),
    so two of them are never the same reference. *)
Definition strict_equal (a b : JSValue) : bool :=
  match a, b with
  | JUndefined, JUndefined => true
  | JNull, JNull => true
  | JBool x, JBool y => Bool.eqb x y
  | JNum x, JNum y => PrimFloat.eqb x y
  | JStr x, JStr y => x =? y
  | _, _ => false
  end.

(** [SameValueZero], the key equality of [Map]: as [===] but [NaN] equals
    itself. *)
Definition sameValueZero (a b : JSValue) : bool :=
  match a, b with
  | JNum x, JNum y => PrimFloat.eqb x y || (PrimFloat.is_nan x && PrimFloat.is_nan y)
  | _, _ => strict_equal a b
  end.

(** A primitive key is found again by [Map.prototype.has]; an object key is
    not, unless the very same reference is presented. *)
Definition primitive (v : JSValue) : bool :=
  match v with
  | JArr _ | JObj _ => false
  | _ => true
  end.

(* ================================================================== *)
(** ** The platform: what Node and its libraries compute *)
(* ================================================================== *)

(** The WHATWG URL parser, the URI coders, [JSON.parse], number formatting,
    the collation behind [String.prototype.localeCompare] and the algorithm
    of [Array.prototype.sort] belong to the runtime, not to this repository.
    They are taken as an interface. [None] stands for the exception the
    operation raises, except in [searchParams_get], where it stands for
    [null].  [Array_sort] takes the comparator, which may raise an [E], and
    the elements that are not [undefined]; it raises what a call of the
    comparator raised. *)
Record Platform : Type := {
  URL : Type;
  new_URL : JSValue -> option URL;
  searchParams_get : URL -> string -> option string;
  decodeURIComponent : string -> option string;
  JSON_parse : string -> option JSValue;
  encodeURIComponent : JSValue -> option string;
  ToString_other : JSValue -> string;
  localeCompare : string -> string -> comparison;
  Array_sort : forall E : Type,
      (JSValue -> JSValue -> E + comparison) -> list JSValue -> E + list JSValue
}.

(** [String(v)] and the interpolation [`${v}`]: the identity on strings. *)
Definition js_to_string (P : Platform) (v : JSValue) : string :=
  match v with
  | JStr s => s
  | _ => ToString_other P v
  end.

(** What ECMAScript asks of a comparator for [Array.prototype.sort] to be
    specified: a consistent comparator.  For [localeCompare] this is a
    property of the collation. *)
Record ConsistentCollation (P : Platform) : Prop := {
  collate_antisym : forall a b, localeCompare P a b = CompOpp (localeCompare P b a);
  collate_trans : forall a b c,
      localeCompare P a b <> Gt -> localeCompare P b c <> Gt -> localeCompare P a c <> Gt
}.

(* ================================================================== *)
(** ** The duplicate-join guard: [activeCallsByThreadId] *)
(* ================================================================== *)

(** A [Map] keeps its entries in insertion order and the [hangup] handler
    walks them in that order, so the guard is the list of its entries,
    [threadId -> callId]. *)
Definition Guard : Type := list (JSValue * JSValue).

Definition empty_guard : Guard := [].

Fixpoint map_has (g : Guard) (key : JSValue) : bool :=
  match g with
  | [] => false
  | (k, _) :: rest => sameValueZero k key || map_has rest key
  end.

Fixpoint map_get (g : Guard) (key : JSValue) : JSValue :=
  match g with
  | [] => JUndefined
  | (k, v) :: rest => if sameValueZero k key then v else map_get rest key
  end.

(** [Map.prototype.set]: an existing entry keeps its place and its key and
    takes the new value; otherwise the entry is appended. *)
Fixpoint map_set (g : Guard) (key val : JSValue) : Guard :=
  match g with
  | [] => [(key, val)]
  | (k, v) :: rest =>
      if sameValueZero k key then (k, val) :: rest
      else (k, v) :: map_set rest key val
  end.

(** [Map.prototype.delete]. *)
Fixpoint map_delete (g : Guard) (key : JSValue) : Guard :=
  match g with
  | [] => []
  | (k, v) :: rest =>
      if sameValueZero k key then rest else (k, v) :: map_delete rest key
  end.

(** The loop of the hangup handler,
<<
    for (const [tId, cId] of activeCallsByThreadId.entries()) {
      if (cId === callId) { activeCallsByThreadId.delete(tId); break; }
    }
>>
    [tId] is the key of the entry being visited, so [delete(tId)] removes
    that entry. *)
Fixpoint release_call (g : Guard) (callId : JSValue) : Guard :=
  match g with
  | [] => []
  | (tId, cId) :: rest =>
      if strict_equal cId callId then rest
      else (tId, cId) :: release_call rest callId
  end.

(** The thread the loop stops at, if any. *)
Fixpoint thread_of_call (g : Guard) (callId : JSValue) : option JSValue :=
  match g with
  | [] => None
  | (tId, cId) :: rest =>
      if strict_equal cId callId then Some tId else thread_of_call rest callId
  end.

(** No two entries have the same key. *)
Fixpoint distinct_keys (g : Guard) : Prop :=
  match g with
  | [] => True
  | (k, _) :: rest =>
      (forall k' v', In (k', v') rest -> sameValueZero k k' = false) /\ distinct_keys rest
  end.

(** The entries registered for one thread. *)
Definition entries_for (g : Guard) (threadId : JSValue) : list (JSValue * JSValue) :=
  filter (fun e => sameValueZero (fst e) threadId) g.

(* ================================================================== *)
(** ** Errors, requests and the handler monad *)
(* ================================================================== *)

(** What a [catch (e)] clause of the handlers reads from [e]: [e.response]
    (set by axios when the server answered, an object with [status] and
    [data]) and [e.message]. *)
Record JSError : Type := {
  e_response : JSValue;
  e_message : JSValue
}.

(** An exception raised by the runtime itself carries no [response]. *)
Definition runtime_error (message : string) : JSError :=
  {| e_response := JUndefined; e_message := JStr message |}.

(** The [TypeError] of reading the property [name] of [null] or [undefined]
    (the text is V8's). *)
Definition cannot_read (v : JSValue) (name : string) : JSError :=
  runtime_error ("Cannot read properties of "
                   ++ match v with JNull => "null" | _ => "undefined" end
                   ++ " (reading '" ++ name ++ "')").

(** The requests a handler awaits.  [GetToken] is [getGraphToken()]; the
    others are [axios.get], [axios.post] and [axios.delete] on a URL (the
    bearer token travels in a header and is not part of the model). *)
Inductive Request : Type :=
| GetToken
| HttpGet (url : string)
| HttpPost (url : string) (body : JSValue)
| HttpDelete (url : string).

(** How an awaited promise settles: fulfilled with the token or with the
    response's [data], or rejected. *)
Inductive Outcome : Type :=
| Fulfilled (data : JSValue)
| Rejected (e : JSError).

Inductive Response : Type :=
| Json (status : nat) (body : JSValue)
| Send (status : nat) (contentType : string) (body : JSValue).

Inductive Prog (A : Type) : Type :=
| Ret (a : A)
| Throw (e : JSError)
| Await (r : Request) (k : Outcome -> Prog A)
| MapHas (key : JSValue) (k : bool -> Prog A)
| MapGet (key : JSValue) (k : JSValue -> Prog A)
| MapSet (key val : JSValue) (k : Prog A)
| MapRelease (callId : JSValue) (k : Prog A).

Arguments Ret {A} a.
Arguments Throw {A} e.
Arguments Await {A} r k.
Arguments MapHas {A} key k.
Arguments MapGet {A} key k.
Arguments MapSet {A} key val k.
Arguments MapRelease {A} callId k.

Fixpoint bind {A B : Type} (p : Prog A) (f : A -> Prog B) : Prog B :=
  match p with
  | Ret a => f a
  | Throw e => Throw e
  | Await r k => Await r (fun o => bind (k o) f)
  | MapHas key k => MapHas key (fun b => bind (k b) f)
  | MapGet key k => MapGet key (fun v => bind (k v) f)
  | MapSet key val k => MapSet key val (bind k f)
  | MapRelease callId k => MapRelease callId (bind k f)
  end.

(** [try { p } catch (e) { h e }]. *)
Fixpoint try_catch {A : Type} (p : Prog A) (h : JSError -> Prog A) : Prog A :=
  match p with
  | Ret a => Ret a
  | Throw e => h e
  | Await r k => Await r (fun o => try_catch (k o) h)
  | MapHas key k => MapHas key (fun b => try_catch (k b) h)
  | MapGet key k => MapGet key (fun v => try_catch (k v) h)
  | MapSet key val k => MapSet key val (try_catch k h)
  | MapRelease callId k => MapRelease callId (try_catch k h)
  end.

(** [await request]: a rejection is thrown at the [await]. *)
Definition await (r : Request) : Prog JSValue :=
  Await r (fun o => match o with
                    | Fulfilled data => Ret data
                    | Rejected e => Throw e
                    end).

(** The operations on [activeCallsByThreadId]; they do not suspend. *)
Definition activeCalls_has (key : JSValue) : Prog bool := MapHas key Ret.
Definition activeCalls_get (key : JSValue) : Prog JSValue := MapGet key Ret.
Definition activeCalls_set (key val : JSValue) : Prog unit := MapSet key val (Ret tt).
Definition activeCalls_release (callId : JSValue) : Prog unit := MapRelease callId (Ret tt).

Declare Scope prog_scope.
Delimit Scope prog_scope with prog.
Notation "x <- p ;; q" := (bind p (fun x => q))
  (at level 61, p at next level, right associativity) : prog_scope.
Notation "p ;; q" := (bind p (fun _ => q))
  (at level 61, right associativity) : prog_scope.
Local Open Scope prog_scope.

(* ================================================================== *)
(** ** Running a handler against the outside world *)
(* ================================================================== *)

(** The world answers the [n]-th request of the process. *)
Definition World : Type := nat -> Request -> Outcome.

(** What a run leaves behind, in order: the requests with the way they
    settled, and the operations on the guard. *)
Inductive Event : Type :=
| EvRequest (r : Request) (settled : Outcome)
| EvHas (key : JSValue) (present : bool)
| EvGet (key : JSValue)
| EvSet (key val : JSValue)
| EvRelease (callId : JSValue).

Inductive Completion (A : Type) : Type :=
| Normal (a : A)
| Uncaught (e : JSError).

Arguments Normal {A} a.
Arguments Uncaught {A} e.

Record Run (A : Type) : Type := {
  result : Completion A;
  guard_after : Guard;
  clock_after : nat;
  events : list Event
}.

Arguments result {A} r.
Arguments guard_after {A} r.
Arguments clock_after {A} r.
Arguments events {A} r.

Definition emit {A : Type} (ev : Event) (r : Run A) : Run A :=
  {| result := result r; guard_after := guard_after r;
     clock_after := clock_after r; events := ev :: events r |}.

Fixpoint run {A : Type} (p : Prog A) (w : World) (g : Guard) (n : nat) : Run A :=
  match p with
  | Ret a => {| result := Normal a; guard_after := g; clock_after := n; events := [] |}
  | Throw e => {| result := Uncaught e; guard_after := g; clock_after := n; events := [] |}
  | Await r k => emit (EvRequest r (w n r)) (run (k (w n r)) w g (S n))
  | MapHas key k => emit (EvHas key (map_has g key)) (run (k (map_has g key)) w g n)
  | MapGet key k => emit (EvGet key) (run (k (map_get g key)) w g n)
  | MapSet key val k => emit (EvSet key val) (run k w (map_set g key val) n)
  | MapRelease callId k => emit (EvRelease callId) (run k w (release_call g callId) n)
  end.

(** A call-creation request; a write to the guard. *)
Definition is_post (ev : Event) : bool :=
  match ev with
  | EvRequest (HttpPost _ _) _ => true
  | _ => false
  end.

Definition is_write (ev : Event) : bool :=
  match ev with
  | EvSet _ _ | EvRelease _ => true
  | _ => false
  end.

(** *** Overlapping requests

    Node runs a handler until it awaits and resumes it when the awaited
    promise settles; in between, other handlers run against the same guard. *)
Fixpoint advance {A : Type} (p : Prog A) (g : Guard) : Prog A * Guard :=
  match p with
  | MapHas key k => advance (k (map_has g key)) g
  | MapGet key k => advance (k (map_get g key)) g
  | MapSet key val k => advance k (map_set g key val)
  | MapRelease callId k => advance k (release_call g callId)
  | Ret _ | Throw _ | Await _ _ => (p, g)
  end.

(** The process: the guard and the handlers in flight, each one suspended at
    an [await] or finished. *)
Record Process : Type := {
  shared : Guard;
  in_flight : list (Prog Response)
}.

(* ================================================================== *)
(** ** The server *)
(* ================================================================== *)

(** [process.env]: each variable is a string or [undefined]. *)
Record Env : Type := {
  env_TENANT_ID : JSValue;
  env_CALLING_CALLBACK_URI : JSValue;
  env_API_KEY : JSValue
}.

Section Server.

Variable P : Platform.
Variable env : Env.

Definition TENANT_ID : JSValue := env_TENANT_ID env.

Definition CALLING_CALLBACK_URI : JSValue :=
  js_or (env_CALLING_CALLBACK_URI env)
        (JStr "https://lysara-e3e2f0dydffnfefs.southeastasia-01.azurewebsites.net/api/calling").

(** [requireApiKey]: [key] is [req.header("x-api-key")]. *)
Definition requireApiKey (key : JSValue) (next : Prog Response) : Prog Response :=
  if negb (truthy (env_API_KEY env)) then
    Ret (Json 500 (JObj [("error", JStr "API_KEY not configured on server")]))
  else if negb (strict_equal key (env_API_KEY env)) then
    Ret (Json 401 (JObj [("error", JStr "Unauthorized")]))
  else next.

Definition getGraphToken : Prog JSValue := await GetToken.

(** [tryExtractOrganizerOid]: every exception of the body is caught and
    turned into [null]. *)
Definition tryExtractOrganizerOid (joinWebUrl : JSValue) : JSValue :=
  match new_URL P joinWebUrl with
  | None => JNull
  | Some u =>
      match searchParams_get P u "context" with
      | None => JNull
      | Some contextParam =>
          if negb (truthy (JStr contextParam)) then JNull
          else
            match decodeURIComponent P contextParam with
            | None => JNull
            | Some decoded =>
                match JSON_parse P decoded with
                | None => JNull
                | Some ctx => js_or (prop ctx "Oid") JNull
                end
            end
      end
  end.

Record Found : Type := {
  meeting : JSValue;
  tried : string;
  error : JSValue
}.

(** [e?.response?.data || e.message], the diagnostic every [catch] reports. *)
Definition diagnostic (e : JSError) : JSValue :=
  js_or (prop (e_response e) "data") (e_message e).

(** The [url] of [findOnlineMeeting]. *)
Definition findOnlineMeeting_url (organizerUserId : JSValue) (encodedJoinWebUrl : string) : string :=
  "https://graph.microsoft.com/v1.0/users/" ++ js_to_string P organizerUserId
    ++ "/onlineMeetings" ++ "?$filter=JoinWebUrl%20eq%20'" ++ encodedJoinWebUrl ++ "'".

(** [findOnlineMeeting].  [encodeURIComponent] runs before the [try]. *)
Definition findOnlineMeeting (token organizerUserId joinWebUrl : JSValue) : Prog Found :=
  match encodeURIComponent P joinWebUrl with
  | None => Throw (runtime_error "URI malformed")
  | Some encodedJoinWebUrl =>
      let url := findOnlineMeeting_url organizerUserId encodedJoinWebUrl in
      try_catch
        (data <- await (HttpGet url) ;;
         Ret {| meeting := js_or (index0 (prop data "value")) JNull;
                tried := url; error := JUndefined |})
        (fun e => Ret {| meeting := JNull; tried := url; error := diagnostic e |})
  end.

(** [isGuid]: [/^[0-9a-fA-F-]{36}$/.test(String(s || ""))]. *)
Definition hex_or_hyphen (c : ascii) : bool :=
  let n := nat_of_ascii c in
  (((48 <=? n) && (n <=? 57)) || ((97 <=? n) && (n <=? 102))
   || ((65 <=? n) && (n <=? 70)) || (n =? 45))%nat.

Definition isGuid (s : JSValue) : bool :=
  let text := js_to_string P (js_or s (JStr "")) in
  (String.length text =? 36)%nat && forallb hex_or_hyphen (list_ascii_of_string text).

Definition createCallUrl : string := "https://graph.microsoft.com/v1.0/communications/calls".

(** The [payload] of the join handler, from the located meeting. *)
Definition payload (found_meeting organizerUserId threadId : JSValue) : JSValue :=
  let joinMeetingId := prop (prop found_meeting "joinMeetingIdSettings") "joinMeetingId" in
  let passcode := js_coalesce (prop (prop found_meeting "joinMeetingIdSettings") "passcode") JNull in
  if truthy joinMeetingId then
    JObj [("@odata.type", JStr "#microsoft.graph.call");
          ("callbackUri", CALLING_CALLBACK_URI);
          ("requestedModalities", JArr [JStr "audio"]);
          ("mediaConfig", JObj [("@odata.type", JStr "#microsoft.graph.serviceHostedMediaConfig")]);
          ("meetingInfo", JObj [("@odata.type", JStr "#microsoft.graph.joinMeetingIdMeetingInfo");
                                ("joinMeetingId", joinMeetingId);
                                ("passcode", passcode)]);
          ("tenantId", TENANT_ID)]
  else
    JObj [("@odata.type", JStr "#microsoft.graph.call");
          ("callbackUri", CALLING_CALLBACK_URI);
          ("requestedModalities", JArr [JStr "audio"]);
          ("mediaConfig", JObj [("@odata.type", JStr "#microsoft.graph.serviceHostedMediaConfig")]);
          ("chatInfo", JObj [("@odata.type", JStr "#microsoft.graph.chatInfo");
                             ("threadId", threadId);
                             ("messageId", JStr "0")]);
          ("meetingInfo",
           JObj [("@odata.type", JStr "#microsoft.graph.organizerMeetingInfo");
                 ("organizer",
                  JObj [("@odata.type", JStr "#microsoft.graph.identitySet");
                        ("user", JObj [("@odata.type", JStr "#microsoft.graph.identity");
                                       ("id", organizerUserId);
                                       ("tenantId", TENANT_ID)])]);
                 ("allowConversationWithoutHost", JBool true)]);
          ("tenantId", TENANT_ID)].

(** The [catch] clause shared by the join, hangup and transcripts handlers. *)
Definition respond_500 (e : JSError) : Prog Response :=
  Ret (Json 500 (JObj [("error", diagnostic e)])).

(** [POST /join]; [body] is [req.body]. *)
Definition join (body : JSValue) : Prog Response :=
  try_catch
    (let joinWebUrl := prop (js_or body (JObj [])) "joinWebUrl" in
     if negb (truthy joinWebUrl) then
       Ret (Json 400 (JObj [("error", JStr "Missing joinWebUrl (Teams meeting join link).")]))
     else
       let organizerUserId := tryExtractOrganizerOid joinWebUrl in
       if negb (truthy organizerUserId) then
         Ret (Json 400
                (JObj [("error", JStr "Could not extract organizer Oid from joinWebUrl context.")]))
       else
         token <- getGraphToken ;;
         found <- findOnlineMeeting token organizerUserId joinWebUrl ;;
         if negb (truthy (meeting found)) then
           Ret (Json 404
                  (JObj [("error", JStr "Online meeting not found for organizerUserId + joinWebUrl.");
                         ("tried", JArr [JStr (tried found)]);
                         ("lookupError", js_or (error found) JNull);
                         ("organizerUserIdUsed", organizerUserId)]))
         else
           let threadId := prop (prop (meeting found) "chatInfo") "threadId" in
           if negb (truthy threadId) then
             Ret (Json 400
                    (JObj [("error", JStr "Online meeting found, but chatInfo.threadId is missing.");
                           ("meetingId", prop (meeting found) "id")]))
           else
             present <- activeCalls_has threadId ;;
             if present then
               existing <- activeCalls_get threadId ;;
               Ret (Json 409 (JObj [("error", JStr "Bot already joined this meeting");
                                    ("callId", existing);
                                    ("threadId", threadId)]))
             else
               callResp_data <- await (HttpPost createCallUrl
                                         (payload (meeting found) organizerUserId threadId)) ;;
               if nullish callResp_data then
                 Throw (cannot_read callResp_data "id")
               else
                 activeCalls_set threadId (prop callResp_data "id") ;;
                 Ret (Json 200
                        (JObj [("ok", JBool true);
                               ("organizerUserIdUsed", organizerUserId);
                               ("meeting", JObj [("id", prop (meeting found) "id");
                                                 ("subject", js_or (prop (meeting found) "subject") JNull);
                                                 ("threadId", threadId)]);
                               ("call", callResp_data)])))
    respond_500.

Definition callUrl (callId : string) : string :=
  "https://graph.microsoft.com/v1.0/communications/calls/" ++ callId.

(** [POST /call/:callId/hangup]; [callId] is [req.params.callId]. *)
Definition hangup (callId : string) : Prog Response :=
  try_catch
    (if negb (isGuid (JStr callId)) then
       Ret (Json 400 (JObj [("error", JStr "callId must be a GUID")]))
     else
       token <- getGraphToken ;;
       await (HttpDelete (callUrl callId)) ;;
       activeCalls_release (JStr callId) ;;
       Ret (Json 200 (JObj [("ok", JBool true); ("callId", JStr callId)])))
    respond_500.

(** [GET /call/:callId]. *)
Definition getState (callId : string) : Prog Response :=
  try_catch
    (if negb (isGuid (JStr callId)) then
       Ret (Json 400 (JObj [("error", JStr "callId must be a GUID")]))
     else
       token <- getGraphToken ;;
       data <- await (HttpGet (callUrl callId)) ;;
       Ret (Json 200 (JObj [("ok", JBool true);
                            ("id", prop data "id");
                            ("state", prop data "state");
                            ("terminationReason", js_or (prop data "terminationReason") JNull)])))
    (fun e =>
       let status := prop (e_response e) "status" in
       if strict_equal status (JNum 404) then
         Ret (Json 404 (JObj [("ok", JBool true); ("state", JStr "not_found_or_ended")]))
       else
         Ret (Json 500 (JObj [("error", diagnostic e)]))).

(** *** The transcript selection

    The comparator passed to [sort],
    [(a, b) => (a.createdDateTime || "").localeCompare(b.createdDateTime || "")].
    Reading a property of [null] or of [undefined] raises.  The receiver is
    evaluated first and the method looked up on it, then the argument is
    evaluated, then the call is made: it raises unless the receiver is a
    string, as no other value that JSON can hold has a [localeCompare]
    method.  The argument is converted to a string. *)
Definition createdDateTime_or_empty (t : JSValue) : option JSValue :=
  if nullish t then None
  else Some (js_or (prop t "createdDateTime") (JStr "")).

(** The [TypeError] of calling a method that is not there (the text is
    V8's, which prints the callee as it is written). *)
Definition localeCompare_not_a_function : JSError :=
  runtime_error ("(a.createdDateTime || "
                   ++ String (ascii_of_nat 34) (String (ascii_of_nat 34) "")
                   ++ ").localeCompare is not a function").

Definition compare_created (a b : JSValue) : JSError + comparison :=
  match createdDateTime_or_empty a with
  | None => inl (cannot_read a "createdDateTime")
  | Some receiver =>
      match createdDateTime_or_empty b with
      | None => inl (cannot_read b "createdDateTime")
      | Some argument =>
          match receiver with
          | JStr ka => inr (localeCompare P ka (js_to_string P argument))
          | _ => inl localeCompare_not_a_function
          end
      end
  end.

(** The stable ascending arrangement of a list, by insertion from the right:
    [x] is listed before every element of [sorted], and goes behind those
    that the comparator, called with the element listed later first, puts
    strictly before it. *)
Fixpoint insert_created (x : JSValue) (sorted : list JSValue) : JSError + list JSValue :=
  match sorted with
  | [] => inr [x]
  | y :: rest =>
      match compare_created y x with
      | inl e => inl e
      | inr Lt =>
          match insert_created x rest with
          | inl e => inl e
          | inr placed => inr (y :: placed)
          end
      | inr _ => inr (x :: y :: rest)
      end
  end.

Fixpoint sort_created (items : list JSValue) : JSError + list JSValue :=
  match items with
  | [] => inr []
  | x :: rest =>
      match sort_created rest with
      | inl e => inl e
      | inr sorted => insert_created x sorted
      end
  end.

Definition is_undefined (v : JSValue) : bool :=
  match v with
  | JUndefined => true
  | _ => false
  end.

(** No call of the comparator on two of the items raises. *)
Definition comparable (items : list JSValue) : bool :=
  forallb (fun a =>
             forallb (fun b => match compare_created a b with
                               | inr _ => true
                               | inl _ => false
                               end) items) items.

(** [transcripts.sort(comparator)].  [undefined] elements are never compared
    and go last.  On the other elements, when no call of the comparator can
    raise, every element is compared by a string, the comparator is a
    consistent one ([localeCompare] is a collation) and ECMAScript fixes the
    result, whatever the algorithm: the one stable ascending arrangement.
    When some call would raise, which calls the sort makes is the engine's
    choice, and with it whether the sort raises, what it raises and what it
    returns otherwise: this is [Array_sort]. *)
Definition sort_outcome (items : list JSValue) : JSError + list JSValue :=
  let defined := filter (fun v => negb (is_undefined v)) items in
  match (if comparable defined then sort_created defined
         else Array_sort P JSError compare_created defined) with
  | inl e => inl e
  | inr sorted => inr (sorted ++ filter is_undefined items)%list
  end.

(** The sorted array, when the sort returns. *)
Definition array_sort (items : list JSValue) : option (list JSValue) :=
  match sort_outcome items with
  | inl _ => None
  | inr sorted => Some sorted
  end.

(** [Array.prototype.pop]: the last element, [undefined] on an empty array. *)
Definition array_pop (items : list JSValue) : JSValue := List.last items JUndefined.

(** [transcripts.sort(...).pop()]; [None] when the sort raises. *)
Definition latest (transcripts : list JSValue) : option JSValue :=
  option_map array_pop (array_sort transcripts).

(** The timestamp a transcript is compared by: defined for an entry that is
    not [null] and whose [createdDateTime] is a string or is missing (falsy),
    in which case it is the empty string. *)
Definition timestamp (t : JSValue) : option string :=
  match createdDateTime_or_empty t with
  | Some (JStr k) => Some k
  | _ => None
  end.

Definition timestamp_or_empty (t : JSValue) : string :=
  match timestamp t with
  | Some k => k
  | None => ""
  end.

Definition compare_timestamps (a b : JSValue) : comparison :=
  localeCompare P (timestamp_or_empty a) (timestamp_or_empty b).

Definition no_later (a b : JSValue) : Prop := compare_timestamps a b <> Gt.
Definition earlier (a b : JSValue) : Prop := compare_timestamps a b = Lt.

(** The entries the collation puts at the time [k]. *)
Definition same_time (k : string) (t : JSValue) : bool :=
  match localeCompare P (timestamp_or_empty t) k with
  | Eq => true
  | _ => false
  end.

(** The insertion sort on entries that all have a timestamp, where no
    comparison can raise. *)
Fixpoint insert_by_timestamp (x : JSValue) (sorted : list JSValue) : list JSValue :=
  match sorted with
  | [] => [x]
  | y :: rest =>
      match compare_timestamps x y with
      | Gt => y :: insert_by_timestamp x rest
      | _ => x :: y :: rest
      end
  end.

Fixpoint sort_by_timestamp (items : list JSValue) : list JSValue :=
  match items with
  | [] => []
  | x :: rest => insert_by_timestamp x (sort_by_timestamp rest)
  end.

(** [GET /transcripts]; [query_joinWebUrl] is [req.query.joinWebUrl]. *)
Definition transcripts (query_joinWebUrl : JSValue) : Prog Response :=
  try_catch
    (let joinWebUrl := query_joinWebUrl in
     if negb (truthy joinWebUrl) then
       Ret (Json 400 (JObj [("error", JStr "Missing joinWebUrl query param")]))
     else
       let organizerUserId := tryExtractOrganizerOid joinWebUrl in
       if negb (truthy organizerUserId) then
         Ret (Json 400
                (JObj [("error", JStr "Could not extract organizer Oid from joinWebUrl context")]))
       else
         token <- getGraphToken ;;
         found <- findOnlineMeeting token organizerUserId joinWebUrl ;;
         if negb (truthy (meeting found)) then
           Ret (Json 404 (JObj [("error", JStr "Online meeting not found");
                                ("tried", JStr (tried found));
                                ("lookupError", js_or (error found) JNull)]))
         else
           let meetingId := prop (meeting found) "id" in
           let listUrl :=
             "https://graph.microsoft.com/v1.0/users/" ++ js_to_string P organizerUserId
               ++ "/onlineMeetings/" ++ js_to_string P meetingId ++ "/transcripts" in
           data <- await (HttpGet listUrl) ;;
           let transcripts := js_or (prop data "value") (JArr []) in
           if negb (length_truthy transcripts) then
             Ret (Json 404
                    (JObj [("error",
                            JStr "No transcripts found yet. Transcription may not be started or still processing.");
                           ("meetingId", meetingId)]))
           else
             match transcripts with
             | JArr items =>
                 match sort_outcome items with
                 | inl e => Throw e
                 | inr sorted =>
                     let latest_transcript := array_pop sorted in
                     if nullish latest_transcript then
                       Throw (cannot_read latest_transcript "id")
                     else
                       let transcriptId := prop latest_transcript "id" in
                       let contentUrl :=
                         "https://graph.microsoft.com/v1.0/users/" ++ js_to_string P organizerUserId
                           ++ "/onlineMeetings/" ++ js_to_string P meetingId
                           ++ "/transcripts/" ++ js_to_string P transcriptId ++ "/content" in
                       content <- await (HttpGet contentUrl) ;;
                       Ret (Send 200 "text/vtt; charset=utf-8" content)
                 end
             | _ => Throw (runtime_error "transcripts.sort is not a function")
             end)
    respond_500.

(** *** The routes, behind [requireApiKey] *)

Inductive Operation : Type :=
| OpJoin (key body : JSValue)
| OpGetState (key : JSValue) (callId : string)
| OpHangup (key : JSValue) (callId : string)
| OpTranscripts (key query_joinWebUrl : JSValue).

Definition route (op : Operation) : Prog Response :=
  match op with
  | OpJoin key body => requireApiKey key (join body)
  | OpGetState key callId => requireApiKey key (getState callId)
  | OpHangup key callId => requireApiKey key (hangup callId)
  | OpTranscripts key q => requireApiKey key (transcripts q)
  end.

(** The process state between two requests: the guard and the number of
    external requests made so far. *)
Definition serve (op : Operation) (w : World) (s : Guard * nat) : Guard * nat :=
  let r := run (route op) w (fst s) (snd s) in
  (guard_after r, clock_after r).

Inductive reachable (w : World) : Guard * nat -> Prop :=
| reach_start : reachable w (empty_guard, 0)
| reach_serve : forall s op, reachable w s -> reachable w (serve op w s).

(** With overlapping requests: a request arrives and its handler runs up to
    its first [await], or an awaited request of a handler in flight settles
    and that handler runs up to its next [await]. *)
Inductive process_step : Process -> Process -> Prop :=
| step_arrive : forall s op p g,
    advance (route op) (shared s) = (p, g) ->
    process_step s {| shared := g; in_flight := p :: in_flight s |}
| step_settle : forall s before r k after settled p g,
    in_flight s = (before ++ Await r k :: after)%list ->
    advance (k settled) (shared s) = (p, g) ->
    process_step s {| shared := g; in_flight := (before ++ p :: after)%list |}.

Inductive process_reachable : Process -> Prop :=
| process_start : process_reachable {| shared := empty_guard; in_flight := [] |}
| process_next : forall s s', process_reachable s -> process_step s s' -> process_reachable s'.

End Server.

(* ================================================================== *)
(** ** A concrete platform and concrete worlds, for the examples *)
(* ================================================================== *)

Module Sample.

Definition quote : string := String (ascii_of_nat 34) "".

(** Two join links.  The [context] parameter of the first decodes to
    [{"Tid":"t-1","Oid":"4b3f1c2a-9d8e-4f70-a1b2-c3d4e5f60718"}], that of the
    second to [{"Oid":"abc"}]. *)
Definition link_guid : string :=
  "https://teams.microsoft.com/l/meetup-join/m1/0?context=%7b%22Tid%22%3a%22t-1%22%2c%22Oid%22%3a%224b3f1c2a-9d8e-4f70-a1b2-c3d4e5f60718%22%7d".

Definition link_short : string :=
  "https://teams.microsoft.com/l/meetup-join/m2/0?context=%7b%22Oid%22%3a%22abc%22%7d".

Definition context_guid : string :=
  "{" ++ quote ++ "Tid" ++ quote ++ ":" ++ quote ++ "t-1" ++ quote ++ ","
      ++ quote ++ "Oid" ++ quote ++ ":" ++ quote ++ "4b3f1c2a-9d8e-4f70-a1b2-c3d4e5f60718" ++ quote ++ "}".

Definition context_short : string :=
  "{" ++ quote ++ "Oid" ++ quote ++ ":" ++ quote ++ "abc" ++ quote ++ "}".

Definition organizer_guid : string := "4b3f1c2a-9d8e-4f70-a1b2-c3d4e5f60718".

(** What Node computes on these two links; the functions are arbitrary
    elsewhere (the theorems hold for every platform).  A URL is represented
    by its decoded search parameters, and [localeCompare] by the code-unit
    order, with which the collation agrees on ISO-8601 timestamps. *)
Definition url_of (v : JSValue) : option (list (string * string)) :=
  match v with
  | JStr s =>
      if s =? link_guid then Some [("context", context_guid)]
      else if s =? link_short then Some [("context", context_short)]
      else None
  | _ => None
  end.

Fixpoint param_of (u : list (string * string)) (name : string) : option string :=
  match u with
  | [] => None
  | (k, v) :: rest => if k =? name then Some v else param_of rest name
  end.

Definition decode (s : string) : option string :=
  if (s =? context_guid) || (s =? context_short) then Some s else None.

Definition parse (s : string) : option JSValue :=
  if s =? context_guid then
    Some (JObj [("Tid", JStr "t-1"); ("Oid", JStr organizer_guid)])
  else if s =? context_short then Some (JObj [("Oid", JStr "abc")])
  else None.

Definition encode (v : JSValue) : option string :=
  match v with
  | JStr s =>
      if s =? link_guid then
        Some "https%3A%2F%2Fteams.microsoft.com%2Fl%2Fmeetup-join%2Fm1%2F0%3Fcontext%3D%257b%2522Tid%2522%253a%2522t-1%2522%252c%2522Oid%2522%253a%25224b3f1c2a-9d8e-4f70-a1b2-c3d4e5f60718%2522%257d"
      else if s =? link_short then
        Some "https%3A%2F%2Fteams.microsoft.com%2Fl%2Fmeetup-join%2Fm2%2F0%3Fcontext%3D%257b%2522Oid%2522%253a%2522abc%2522%257d"
      else None
  | _ => None
  end.

(** The sort as an engine runs it on a short array: each element in turn is
    placed in the sorted part before it, and is the first argument of every
    comparison made to place it.  [sorted_rev] is that part, last element
    first. *)
Fixpoint place {E : Type} (comparefn : JSValue -> JSValue -> E + comparison) (x : JSValue)
         (sorted_rev : list JSValue) : E + list JSValue :=
  match sorted_rev with
  | [] => inr [x]
  | y :: before =>
      match comparefn x y with
      | inl e => inl e
      | inr Lt =>
          match place comparefn x before with
          | inl e => inl e
          | inr placed => inr (y :: placed)
          end
      | inr _ => inr (x :: y :: before)
      end
  end.

Fixpoint sort_from {E : Type} (comparefn : JSValue -> JSValue -> E + comparison)
         (sorted_rev items : list JSValue) : E + list JSValue :=
  match items with
  | [] => inr (rev sorted_rev)
  | x :: rest =>
      match place comparefn x sorted_rev with
      | inl e => inl e
      | inr placed => sort_from comparefn placed rest
      end
  end.

Definition sort (E : Type) (comparefn : JSValue -> JSValue -> E + comparison)
           (items : list JSValue) : E + list JSValue :=
  sort_from comparefn [] items.

(** [String(v)] on values that are not strings: numbers that are integers
    below [10^21] in magnitude are printed in decimal (the printing of other
    finite numbers is not modelled), arrays are joined. *)
Definition number_to_string (x : float) : string :=
  match Prim2SF x with
  | S754_zero _ => "0"
  | S754_infinity false => "Infinity"
  | S754_infinity true => "-Infinity"
  | S754_nan => "NaN"
  | S754_finite negative m e =>
      let magnitude :=
        match e with
        | Z0 => Some (Zpos m)
        | Zpos shift => Some (Z.shiftl (Zpos m) (Zpos shift))
        | Zneg shift =>
            if Z.eqb (Z.land (Zpos m) (Z.ones (Zpos shift))) 0
            then Some (Z.shiftr (Zpos m) (Zpos shift))
            else None
        end in
      match magnitude with
      | Some z =>
          if Z.ltb z (10 ^ 21)
          then (if negative then "-" else "") ++ NilZero.string_of_uint (N.to_uint (Z.to_N z))
          else ""
      | None => ""
      end
  end.

Fixpoint to_string (v : JSValue) : string :=
  match v with
  | JUndefined => "undefined"
  | JNull => "null"
  | JBool true => "true"
  | JBool false => "false"
  | JNum x => number_to_string x
  | JStr s => s
  | JArr items =>
      (fix join (vs : list JSValue) : string :=
         match vs with
         | [] => ""
         | [v] => match v with JUndefined | JNull => "" | _ => to_string v end
         | v :: rest =>
             match v with JUndefined | JNull => "" | _ => to_string v end ++ "," ++ join rest
         end) items
  | JObj _ => "[object Object]"
  end.

Definition platform : Platform :=
  {| URL := list (string * string);
     new_URL := url_of;
     searchParams_get := param_of;
     decodeURIComponent := decode;
     JSON_parse := parse;
     encodeURIComponent := encode;
     ToString_other := to_string;
     localeCompare := String.compare;
     Array_sort := sort |}.

Definition env : Env :=
  {| env_TENANT_ID := JStr "t-1";
     env_CALLING_CALLBACK_URI := JUndefined;
     env_API_KEY := JStr "secret" |}.

(** A meeting with lobby credentials and no passcode, and one without. *)
Definition meeting_lobby : JSValue :=
  JObj [("id", JStr "M1"); ("subject", JStr "Weekly");
        ("chatInfo", JObj [("threadId", JStr "T1")]);
        ("joinMeetingIdSettings", JObj [("joinMeetingId", JStr "123456789")])].

Definition meeting_plain : JSValue :=
  JObj [("id", JStr "M2"); ("chatInfo", JObj [("threadId", JStr "T2")])].

Definition call_id : string := "11111111-2222-3333-4444-555555555555".

Definition created_call : JSValue :=
  JObj [("id", JStr call_id); ("state", JStr "establishing")].

Definition upstream_error (status : float) (data : JSValue) : JSError :=
  {| e_response := JObj [("status", JNum status); ("data", data)];
     e_message := JStr "Request failed" |}.

(** Graph finds the lobby meeting for every lookup and accepts everything. *)
Definition world_ok : World :=
  fun _ r =>
    match r with
    | GetToken => Fulfilled (JStr "token")
    | HttpGet _ => Fulfilled (JObj [("value", JArr [meeting_lobby])])
    | HttpPost _ _ => Fulfilled created_call
    | HttpDelete _ => Fulfilled JUndefined
    end.

(** Graph answers every request on a call with the given status. *)
Definition world_failing (status : float) (data : JSValue) : World :=
  fun _ r =>
    match r with
    | GetToken => Fulfilled (JStr "token")
    | HttpGet url =>
        if String.prefix "https://graph.microsoft.com/v1.0/users/" url
        then Fulfilled (JObj [("value", JArr [meeting_plain])])
        else Rejected (upstream_error status data)
    | HttpPost _ _ => Rejected (upstream_error status data)
    | HttpDelete _ => Rejected (upstream_error status data)
    end.

Definition body_guid : JSValue := JObj [("joinWebUrl", JStr link_guid)].
Definition body_short : JSValue := JObj [("joinWebUrl", JStr link_short)].

(** The guard after a first join of the lobby meeting. *)
Definition guard_T1 : Guard := [(JStr "T1", JStr call_id)].

Definition found_lobby : Found :=
  {| meeting := meeting_lobby;
     tried := findOnlineMeeting_url platform (JStr organizer_guid)
                "https%3A%2F%2Fteams.microsoft.com%2Fl%2Fmeetup-join%2Fm1%2F0%3Fcontext%3D%257b%2522Tid%2522%253a%2522t-1%2522%252c%2522Oid%2522%253a%25224b3f1c2a-9d8e-4f70-a1b2-c3d4e5f60718%2522%257d";
     error := JUndefined |}.

(** The transcripts of the example of the specification, and one without
    [createdDateTime]. *)
Definition transcript_1 : JSValue :=
  JObj [("id", JStr "tr-1"); ("createdDateTime", JStr "2024-01-01T00:00:00Z")].
Definition transcript_2 : JSValue :=
  JObj [("id", JStr "tr-2"); ("createdDateTime", JStr "2024-01-02T00:00:00Z")].
Definition transcript_3 : JSValue :=
  JObj [("id", JStr "tr-3"); ("createdDateTime", JStr "2024-01-02T00:00:00Z")].
Definition transcript_undated : JSValue := JObj [("id", JStr "tr-0")].

End Sample.

(** Join links whose context carries a percent sign, on a platform that
    decodes for itself. *)
Module Escaped.

(** [decodeURIComponent], as ECMAScript defines it, on strings given by their
    UTF-8 octets: a percent sign must be followed by two hexadecimal digits,
    and the escaped octets must be the UTF-8 encoding of code points, each
    one escaped octet by octet; everything else is kept. *)
Definition hex_value (c : ascii) : option nat :=
  let n := nat_of_ascii c in
  if ((48 <=? n) && (n <=? 57))%nat then Some (n - 48)
  else if ((65 <=? n) && (n <=? 70))%nat then Some (n - 55)
  else if ((97 <=? n) && (n <=? 102))%nat then Some (n - 87)
  else None.

Inductive Unit : Type :=
| Plain (c : ascii)
| Escape (octet : nat).

Fixpoint read_escapes (s : string) : option (list Unit) :=
  match s with
  | EmptyString => Some []
  | String c rest =>
      if Ascii.eqb c "%" then
        match rest with
        | String h (String l rest') =>
            match hex_value h, hex_value l with
            | Some a, Some b => option_map (cons (Escape (16 * a + b))) (read_escapes rest')
            | _, _ => None
            end
        | _ => None
        end
      else option_map (cons (Plain c)) (read_escapes rest)
  end.

Definition between (low high n : nat) : bool := ((low <=? n) && (n <=? high))%nat.

(** The octets that may follow a leading octet: how many, and the range of
    the first of them (the others are in [128..191]). *)
Definition continuation (lead : nat) : option (nat * (nat * nat)) :=
  if between 194 223 lead then Some (1, (128, 191))
  else if (lead =? 224)%nat then Some (2, (160, 191))
  else if (lead =? 237)%nat then Some (2, (128, 159))
  else if between 225 239 lead then Some (2, (128, 191))
  else if (lead =? 240)%nat then Some (3, (144, 191))
  else if between 241 243 lead then Some (3, (128, 191))
  else if (lead =? 244)%nat then Some (3, (128, 143))
  else None.

Definition octet (n : nat) (rest : string) : string := String (ascii_of_nat n) rest.

Fixpoint octets (units : list Unit) : option string :=
  match units with
  | [] => Some ""
  | Plain c :: rest => option_map (String c) (octets rest)
  | Escape b1 :: rest =>
      if (b1 <? 128)%nat then option_map (octet b1) (octets rest)
      else
        match continuation b1, rest with
        | Some (1, (low, high)), Escape b2 :: rest' =>
            if between low high b2
            then option_map (fun s => octet b1 (octet b2 s)) (octets rest')
            else None
        | Some (2, (low, high)), Escape b2 :: Escape b3 :: rest' =>
            if between low high b2 && between 128 191 b3
            then option_map (fun s => octet b1 (octet b2 (octet b3 s))) (octets rest')
            else None
        | Some (3, (low, high)), Escape b2 :: Escape b3 :: Escape b4 :: rest' =>
            if between low high b2 && between 128 191 b3 && between 128 191 b4
            then option_map (fun s => octet b1 (octet b2 (octet b3 (octet b4 s)))) (octets rest')
            else None
        | _, _ => None
        end
  end.

Definition decode (s : string) : option string :=
  match read_escapes s with
  | Some units => octets units
  | None => None
  end.

(** Two links, by the text of their [context] parameter.  URL-decoded, the
    parameter of the first is [{"Oid":"a%41b"}] and that of the second
    [{"Oid":"100%"}]. *)
Definition link_with (context : string) : string :=
  "https://teams.microsoft.com/l/meetup-join/m3/0?context=" ++ context.

Definition raw_escaped : string := "%7b%22Oid%22%3a%22a%2541b%22%7d".
Definition raw_percent : string := "%7b%22Oid%22%3a%22100%25%22%7d".

Definition link_escaped : string := link_with raw_escaped.
Definition link_percent : string := link_with raw_percent.

Definition object_with_Oid (oid : string) : string :=
  "{" ++ Sample.quote ++ "Oid" ++ Sample.quote ++ ":" ++ Sample.quote ++ oid ++ Sample.quote ++ "}".

Definition context_escaped : string := object_with_Oid "a%41b".
Definition context_percent : string := object_with_Oid "100%".

(** What Node computes on these links, and on those of [Sample].  The
    parameters of a URL are held decoded: on text whose escapes are well
    formed, the decoding of [searchParams] is the one above. *)
Definition url_of (v : JSValue) : option (list (string * string)) :=
  match v with
  | JStr s =>
      if s =? link_escaped then
        option_map (fun context => [("context", context)]) (decode raw_escaped)
      else if s =? link_percent then
        option_map (fun context => [("context", context)]) (decode raw_percent)
      else Sample.url_of v
  | _ => None
  end.

Definition parse (s : string) : option JSValue :=
  if s =? context_escaped then Some (JObj [("Oid", JStr "a%41b")])
  else if s =? object_with_Oid "aAb" then Some (JObj [("Oid", JStr "aAb")])
  else if s =? context_percent then Some (JObj [("Oid", JStr "100%")])
  else Sample.parse s.

Definition encode (v : JSValue) : option string :=
  match v with
  | JStr s =>
      if s =? link_escaped then
        Some "https%3A%2F%2Fteams.microsoft.com%2Fl%2Fmeetup-join%2Fm3%2F0%3Fcontext%3D%257b%2522Oid%2522%253a%2522a%252541b%2522%257d"
      else if s =? link_percent then
        Some "https%3A%2F%2Fteams.microsoft.com%2Fl%2Fmeetup-join%2Fm3%2F0%3Fcontext%3D%257b%2522Oid%2522%253a%2522100%2525%2522%257d"
      else Sample.encode v
  | _ => None
  end.

Definition platform : Platform :=
  {| URL := list (string * string);
     new_URL := url_of;
     searchParams_get := Sample.param_of;
     decodeURIComponent := decode;
     JSON_parse := parse;
     encodeURIComponent := encode;
     ToString_other := Sample.to_string;
     localeCompare := String.compare;
     Array_sort := Sample.sort |}.

End Escaped.

(** A percent sign in a string. *)
Fixpoint has_percent (s : string) : bool :=
  match s with
  | EmptyString => false
  | String c rest => Ascii.eqb c "%" || has_percent rest
  end.

(* ================================================================== *)
(** ** Runs of composed programs *)
(* ================================================================== *)

(** The run of [p] followed by the run that [next] starts where [p] ended. *)
Definition then_run {A B : Type} (r : Run A) (next : A -> Guard -> nat -> Run B) : Run B :=
  match result r with
  | Normal a =>
      let r' := next a (guard_after r) (clock_after r) in
      {| result := result r'; guard_after := guard_after r';
         clock_after := clock_after r'; events := (events r ++ events r')%list |}
  | Uncaught e =>
      {| result := Uncaught e; guard_after := guard_after r;
         clock_after := clock_after r; events := events r |}
  end.

Definition else_run {A : Type} (r : Run A) (handler : JSError -> Guard -> nat -> Run A) : Run A :=
  match result r with
  | Normal a => r
  | Uncaught e =>
      let r' := handler e (guard_after r) (clock_after r) in
      {| result := result r'; guard_after := guard_after r';
         clock_after := clock_after r'; events := (events r ++ events r')%list |}
  end.

Lemma run_eta {A : Type} (r : Run A) :
  {| result := result r; guard_after := guard_after r;
     clock_after := clock_after r; events := events r |} = r.
Proof. destruct r; reflexivity. Qed.

Lemma then_run_emit {A B : Type} (ev : Event) (r : Run A) (next : A -> Guard -> nat -> Run B) :
  then_run (emit ev r) next = emit ev (then_run r next).
Proof. destruct r as [[a | e] g n evs]; reflexivity. Qed.

Lemma else_run_emit {A : Type} (ev : Event) (r : Run A) (handler : JSError -> Guard -> nat -> Run A) :
  else_run (emit ev r) handler = emit ev (else_run r handler).
Proof. destruct r as [[a | e] g n evs]; reflexivity. Qed.

Lemma run_bind {A B : Type} (p : Prog A) (f : A -> Prog B) (w : World) :
  forall g n,
    run (bind p f) w g n = then_run (run p w g n) (fun a g' n' => run (f a) w g' n').
Proof.
  induction p as [a | e | r k IH | key k IH | key k IH | key val k IH | callId k IH];
    intros g n; simpl;
    try (rewrite then_run_emit; f_equal; auto).
  - unfold then_run; simpl. now rewrite run_eta.
  - reflexivity.
Qed.

Lemma run_try_catch {A : Type} (p : Prog A) (h : JSError -> Prog A) (w : World) :
  forall g n,
    run (try_catch p h) w g n = else_run (run p w g n) (fun e g' n' => run (h e) w g' n').
Proof.
  induction p as [a | e | r k IH | key k IH | key k IH | key val k IH | callId k IH];
    intros g n; simpl;
    try (rewrite else_run_emit; f_equal; auto).
  - reflexivity.
  - unfold else_run; simpl. now rewrite run_eta.
Qed.

(* ================================================================== *)
(** ** The key equality of the guard *)
(* ================================================================== *)

Lemma SFeqb_euclid (a b t : SpecFloat.spec_float) :
  SpecFloat.SFeqb a t = true -> SpecFloat.SFeqb b t = true -> SpecFloat.SFeqb a b = true.
Proof.
  assert (Hfin : forall s m e s' m' e',
             SpecFloat.SFeqb (SpecFloat.S754_finite s m e) (SpecFloat.S754_finite s' m' e') = true ->
             s = s' /\ m = m' /\ e = e').
  { intros s m e s' m' e'. unfold SpecFloat.SFeqb; simpl.
    destruct s, s'; try discriminate;
      destruct (Z.compare e e') eqn:He; try discriminate;
      destruct (Pos.compare_cont Eq m m') eqn:Hm; try discriminate;
      intros _; apply Z.compare_eq in He; apply Pos.compare_eq in Hm; auto. }
  destruct a as [sa | sa | | sa ma ea], t as [st | st | | st mt et];
    try (unfold SpecFloat.SFeqb; simpl; repeat match goal with s : bool |- _ => destruct s end;
         discriminate);
    destruct b as [sb | sb | | sb mb eb];
    try (unfold SpecFloat.SFeqb; simpl; repeat match goal with s : bool |- _ => destruct s end;
         (discriminate || reflexivity)).
  intros Ha Hb. apply Hfin in Ha. apply Hfin in Hb.
  destruct Ha as (-> & -> & ->), Hb as (-> & -> & ->).
  unfold SpecFloat.SFeqb; simpl.
  rewrite Z.compare_refl, Pos.compare_cont_refl. destruct st; reflexivity.
Qed.

Lemma float_eqb_euclid (x y t : float) :
  PrimFloat.eqb x t = true -> PrimFloat.eqb y t = true -> PrimFloat.eqb x y = true.
Proof. rewrite !FloatAxioms.eqb_spec. apply SFeqb_euclid. Qed.

Lemma float_eqb_not_nan_r (x t : float) :
  PrimFloat.eqb x t = true -> PrimFloat.is_nan t = false.
Proof.
  unfold PrimFloat.is_nan. rewrite !FloatAxioms.eqb_spec.
  destruct (Prim2SF x) as [sa | sa | | sa ma ea], (Prim2SF t) as [st | st | | st mt et];
    unfold SpecFloat.SFeqb; simpl;
    repeat match goal with s : bool |- _ => destruct s end;
    try discriminate; try reflexivity;
    intros _; rewrite Z.compare_refl, Pos.compare_cont_refl; reflexivity.
Qed.

(** Two keys that both match a third one match each other. *)
Lemma sameValueZero_euclid (a b t : JSValue) :
  sameValueZero a t = true -> sameValueZero b t = true -> sameValueZero a b = true.
Proof.
  destruct a, t; simpl; try discriminate; destruct b; simpl; try discriminate; auto.
  - intros Ha Hb. apply Bool.eqb_prop in Ha, Hb. subst. apply Bool.eqb_reflx.
  - intros Ha Hb.
    apply Bool.orb_true_iff in Ha, Hb. apply Bool.orb_true_iff.
    destruct Ha as [Ha | Ha], Hb as [Hb | Hb].
    + left. eapply float_eqb_euclid; eauto.
    + apply float_eqb_not_nan_r in Ha. apply Bool.andb_true_iff in Hb. destruct Hb; congruence.
    + apply float_eqb_not_nan_r in Hb. apply Bool.andb_true_iff in Ha. destruct Ha; congruence.
    + right. apply Bool.andb_true_iff in Ha, Hb. apply Bool.andb_true_iff. tauto.
  - intros Ha Hb. apply String.eqb_eq in Ha, Hb. subst. apply String.eqb_refl.
Qed.

Lemma sameValueZero_string (k : JSValue) (s : string) :
  sameValueZero k (JStr s) = true -> k = JStr s.
Proof.
  destruct k; simpl; try discriminate. intros H. apply String.eqb_eq in H. now subst.
Qed.

(* ================================================================== *)
(** ** The guard keeps its keys distinct *)
(* ================================================================== *)

Lemma map_set_entries (g : Guard) (key val k' v' : JSValue) :
  In (k', v') (map_set g key val) ->
  (exists v0, In (k', v0) g) \/ (k' = key /\ v' = val).
Proof.
  induction g as [| [k v] rest IH]; simpl.
  - intros [H | []]. inversion H; auto.
  - destruct (sameValueZero k key).
    + intros [H | H].
      * inversion H; subst. left; exists v; auto.
      * left; exists v'; auto.
    + intros [H | H].
      * inversion H; subst. left; exists v'; auto.
      * destruct (IH H) as [[v0 H0] | H0]; [left; exists v0; auto | auto].
Qed.

Lemma map_set_distinct (g : Guard) (key val : JSValue) :
  distinct_keys g -> distinct_keys (map_set g key val).
Proof.
  induction g as [| [k v] rest IH]; simpl.
  - intros _. split; [intros k' v' [] | exact I].
  - intros [Hhead Hrest]. destruct (sameValueZero k key) eqn:Hk; simpl.
    + split; assumption.
    + split; [| auto].
      intros k' v' Hin. apply map_set_entries in Hin.
      destruct Hin as [[v0 H0] | [-> _]]; eauto.
Qed.

Lemma release_call_entries (g : Guard) (callId : JSValue) (e : JSValue * JSValue) :
  In e (release_call g callId) -> In e g.
Proof.
  induction g as [| [k v] rest IH]; simpl; auto.
  destruct (strict_equal v callId); simpl; intuition.
Qed.

Lemma release_call_distinct (g : Guard) (callId : JSValue) :
  distinct_keys g -> distinct_keys (release_call g callId).
Proof.
  induction g as [| [k v] rest IH]; simpl; auto.
  intros [Hhead Hrest]. destruct (strict_equal v callId); simpl; auto.
  split; auto. intros k' v' Hin. apply release_call_entries in Hin. eauto.
Qed.

(** Whatever a program does, it reaches the guard through [set] and through
    the release loop only. *)
Lemma run_distinct {A : Type} (p : Prog A) (w : World) :
  forall g n, distinct_keys g -> distinct_keys (guard_after (run p w g n)).
Proof.
  induction p as [a | e | r k IH | key k IH | key k IH | key val k IH | callId k IH];
    intros g n Hg; simpl; auto.
  - apply IH. now apply map_set_distinct.
  - apply IH. now apply release_call_distinct.
Qed.

Lemma distinct_entries_for (g : Guard) (threadId : JSValue) :
  distinct_keys g -> List.length (entries_for g threadId) <= 1.
Proof.
  unfold entries_for. induction g as [| [k v] rest IH]; simpl; auto.
  intros [Hhead Hrest]. destruct (sameValueZero k threadId) eqn:Hk; simpl; auto.
  destruct (filter (fun e => sameValueZero (fst e) threadId) rest) as [| [k' v'] more] eqn:Hf;
    simpl; auto.
  assert (Hin : In (k', v') (filter (fun e => sameValueZero (fst e) threadId) rest))
    by (rewrite Hf; left; reflexivity).
  apply filter_In in Hin. destruct Hin as [Hin Hk']. simpl in Hk'.
  pose proof (Hhead k' v' Hin) as Hd.
  rewrite (sameValueZero_euclid _ _ _ Hk Hk') in Hd. discriminate.
Qed.

(** A primitive key that was set is found again, with the value set last. *)
Lemma sameValueZero_refl (k : JSValue) : primitive k = true -> sameValueZero k k = true.
Proof.
  destruct k; simpl; try discriminate; intros _; auto.
  - apply Bool.eqb_reflx.
  - unfold PrimFloat.is_nan. destruct (PrimFloat.eqb x x); reflexivity.
  - apply String.eqb_refl.
Qed.

Lemma map_has_set (g : Guard) (key val : JSValue) :
  primitive key = true ->
  map_has (map_set g key val) key = true /\ map_get (map_set g key val) key = val.
Proof.
  intros Hkey. induction g as [| [k v] rest IH]; simpl.
  - now rewrite (sameValueZero_refl key Hkey).
  - destruct (sameValueZero k key) eqn:Hk; simpl; rewrite Hk; simpl; auto.
Qed.

(** On a guard with distinct keys, the loop of the hangup handler deletes the
    entry of the thread it stops at. *)
Lemma release_call_deletes (g : Guard) (callId : JSValue) :
  distinct_keys g ->
  match thread_of_call g callId with
  | Some tId => primitive tId = true -> release_call g callId = map_delete g tId
  | None => release_call g callId = g
  end.
Proof.
  induction g as [| [k v] rest IH]; simpl; auto.
  intros [Hhead Hrest]. destruct (strict_equal v callId) eqn:Hv.
  - intros Hk. now rewrite (sameValueZero_refl k Hk).
  - specialize (IH Hrest). destruct (thread_of_call rest callId) as [tId |] eqn:Ht.
    + intros HtId. rewrite (IH HtId).
      assert (Hin : exists c, In (tId, c) rest).
      { clear - Ht. induction rest as [| [k' v'] rest' IH']; simpl in *; [discriminate |].
        destruct (strict_equal v' callId).
        - injection Ht as <-. eauto.
        - destruct (IH' Ht) as [c Hc]. eauto. }
      destruct Hin as [c Hc]. now rewrite (Hhead tId c Hc).
    + now rewrite IH.
Qed.

(* ================================================================== *)
(** ** Case analysis of a run *)
(* ================================================================== *)

Ltac open_handlers :=
  unfold route, requireApiKey, join, hangup, getState, transcripts, findOnlineMeeting,
    getGraphToken, await, activeCalls_has, activeCalls_get, activeCalls_set,
    activeCalls_release, respond_500 in *.

Ltac split_run :=
  match goal with
  | |- context [if negb ?b then _ else _] => destruct b eqn:?; simpl negb
  | |- context [if ?c then _ else _] => destruct c eqn:?
  | |- context [match ?x with _ => _ end] => destruct x eqn:?
  end.

Ltac all_runs := open_handlers; repeat (simpl; try split_run).

Section Join.

Variable P : Platform.
Variable env : Env.

(** The lookup leaves the guard alone and asks for one document. *)
Lemma findOnlineMeeting_run (token organizerUserId joinWebUrl : JSValue) (w : World)
      (g : Guard) (n : nat) :
  let r := run (findOnlineMeeting P token organizerUserId joinWebUrl) w g n in
  guard_after r = g /\ existsb is_post (events r) = false /\ existsb is_write (events r) = false
  /\ (forall found, result r = Normal found -> clock_after r = S n).
Proof.
  all_runs; repeat split; try reflexivity; intros; discriminate.
Qed.

(** C1.  A join whose located meeting has a [threadId] already in the guard
    is answered 409 with the stored [callId] and that [threadId]; the guard
    is left as it was and the run posts nothing.  And in every run of the
    join handler, a call-creation request comes after a guard check that
    found no entry, with no other call-creation request before it. *)
Theorem join_duplicate_checked_before_creation :
  (forall (w : World) (g : Guard) (n : nat) (body token : JSValue) (found : Found),
      let joinWebUrl := prop (js_or body (JObj [])) "joinWebUrl" in
      let organizerUserId := tryExtractOrganizerOid P joinWebUrl in
      let threadId := prop (prop (meeting found) "chatInfo") "threadId" in
      truthy joinWebUrl = true ->
      truthy organizerUserId = true ->
      w n GetToken = Fulfilled token ->
      result (run (findOnlineMeeting P token organizerUserId joinWebUrl) w g (S n)) = Normal found ->
      truthy (meeting found) = true ->
      truthy threadId = true ->
      map_has g threadId = true ->
      let r := run (join P env body) w g n in
      result r = Normal (Json 409 (JObj [("error", JStr "Bot already joined this meeting");
                                         ("callId", map_get g threadId);
                                         ("threadId", threadId)]))
      /\ guard_after r = g
      /\ existsb is_post (events r) = false)
  /\ (forall (w : World) (g : Guard) (n : nat) (body : JSValue) (before after : list Event)
             (ev : Event),
         events (run (join P env body) w g n) = (before ++ ev :: after)%list ->
         is_post ev = true ->
         (exists threadId, In (EvHas threadId false) before)
         /\ existsb is_post before = false).
Proof.
  split.
  - intros w g n body token found joinWebUrl organizerUserId threadId
           Hlink Horg Htoken Hfound Hmeeting Hthread Hhas r.
    subst r. unfold join. fold joinWebUrl. rewrite Hlink. simpl negb. cbv iota.
    fold organizerUserId. rewrite Horg. simpl negb. cbv iota.
    rewrite run_try_catch. unfold getGraphToken, await. simpl bind. simpl run.
    rewrite Htoken. simpl bind. rewrite run_bind.
    destruct (findOnlineMeeting_run token organizerUserId joinWebUrl w g (S n))
      as (Hg & Hpost & _ & Hclock).
    unfold then_run. rewrite Hfound. rewrite Hmeeting. simpl negb. cbv iota.
    fold threadId. rewrite Hthread. simpl negb. cbv iota.
    rewrite Hg. unfold activeCalls_has, activeCalls_get. simpl. rewrite Hhas. simpl.
    unfold else_run; simpl. repeat split; auto.
    rewrite existsb_app, Hpost. reflexivity.
  - intros w g n body before after ev Hev Hpost.
    revert Hev. all_runs; intros Hev;
      repeat (destruct before as [| ? before]; simpl in Hev;
              [ injection Hev as <- ?; try discriminate Hpost
              | injection Hev as <- Hev ]);
      try (destruct before; discriminate Hev);
      try discriminate.
    all: split; [eexists; simpl; eauto | reflexivity].
Qed.

End Join.

Lemma join_duplicate_witness :
  let r := run (join Sample.platform Sample.env Sample.body_guid) Sample.world_ok Sample.guard_T1 0 in
  result r = Normal (Json 409 (JObj [("error", JStr "Bot already joined this meeting");
                                     ("callId", JStr Sample.call_id);
                                     ("threadId", JStr "T1")]))
  /\ guard_after r = Sample.guard_T1
  /\ existsb is_post (events r) = false.
Proof.
  exact (proj1 (join_duplicate_checked_before_creation Sample.platform Sample.env)
               Sample.world_ok Sample.guard_T1 0 Sample.body_guid (JStr "token") Sample.found_lobby
               eq_refl eq_refl eq_refl eq_refl eq_refl eq_refl eq_refl).
Defined.

(* ================================================================== *)
(** ** Failed requests and the guard *)
(* ================================================================== *)

Ltac close_failed H :=
  repeat match type of H with
         | _ \/ _ => destruct H as [H | H]
         | False => destruct H
         end;
  try discriminate H;
  split; reflexivity.

(** C2.  When the call-creation POST of a join is rejected, or the
    termination DELETE of a hangup is rejected, the run writes nothing to the
    guard and ends with the guard it started from. *)
Theorem failed_request_keeps_guard (P : Platform) (env : Env) :
  (forall (w : World) (g : Guard) (n : nat) (body : JSValue) (url : string)
          (posted : JSValue) (e : JSError),
      In (EvRequest (HttpPost url posted) (Rejected e)) (events (run (join P env body) w g n)) ->
      guard_after (run (join P env body) w g n) = g
      /\ existsb is_write (events (run (join P env body) w g n)) = false)
  /\ (forall (w : World) (g : Guard) (n : nat) (callId url : string) (e : JSError),
         In (EvRequest (HttpDelete url) (Rejected e)) (events (run (hangup P callId) w g n)) ->
         guard_after (run (hangup P callId) w g n) = g
         /\ existsb is_write (events (run (hangup P callId) w g n)) = false).
Proof.
  split.
  - intros w g n body url posted e. all_runs; intros H; close_failed H.
  - intros w g n callId url e. all_runs; intros H; close_failed H.
Qed.

Lemma failed_request_witness :
  (let r := run (join Sample.platform Sample.env Sample.body_short)
                (Sample.world_failing 503 JNull) Sample.guard_T1 0 in
   guard_after r = Sample.guard_T1 /\ existsb is_write (events r) = false)
  /\ (let r := run (hangup Sample.platform Sample.call_id)
                   (Sample.world_failing 503 JNull) Sample.guard_T1 0 in
      guard_after r = Sample.guard_T1 /\ existsb is_write (events r) = false).
Proof.
  split.
  - refine (proj1 (failed_request_keeps_guard Sample.platform Sample.env)
                  (Sample.world_failing 503 JNull) Sample.guard_T1 0 Sample.body_short
                  createCallUrl
                  (payload Sample.env Sample.meeting_plain (JStr "abc") (JStr "T2"))
                  (Sample.upstream_error 503 JNull) _).
    vm_compute. do 3 right. left. reflexivity.
  - refine (proj2 (failed_request_keeps_guard Sample.platform Sample.env)
                  (Sample.world_failing 503 JNull) Sample.guard_T1 0 Sample.call_id
                  (callUrl Sample.call_id) (Sample.upstream_error 503 JNull) _).
    vm_compute. right. left. reflexivity.
Defined.

(* ================================================================== *)
(** ** One entry per thread *)
(* ================================================================== *)

Lemma advance_distinct {A : Type} (p : Prog A) :
  forall g, distinct_keys g -> distinct_keys (snd (advance p g)).
Proof.
  induction p as [a | e | r k IH | key k IH | key k IH | key val k IH | callId k IH];
    intros g Hg; simpl; auto.
  - apply IH. now apply map_set_distinct.
  - apply IH. now apply release_call_distinct.
Qed.

(** The same holds when the requests overlap. *)
Lemma overlapping_guard_one_entry_per_thread (P : Platform) (env : Env) (s : Process) :
  process_reachable P env s ->
  distinct_keys (shared s)
  /\ forall threadId, List.length (entries_for (shared s) threadId) <= 1.
Proof.
  intros Hreach.
  assert (Hd : distinct_keys (shared s)).
  { induction Hreach as [| s s' _ IH Hstep]; simpl; [exact I |].
    destruct Hstep as [s op p g Hadv | s before r k after settled p g _ Hadv]; simpl.
    - change g with (snd (p, g)). rewrite <- Hadv. now apply advance_distinct.
    - change g with (snd (p, g)). rewrite <- Hadv. now apply advance_distinct. }
  split; [exact Hd | intros threadId; now apply distinct_entries_for].
Qed.

(** C3.  In every state reached from the empty guard by serving join,
    getState, hangup and transcripts requests, no two entries of the guard
    have the same key, and the guard holds at most one entry for any
    [threadId]. *)
Theorem guard_one_entry_per_thread (P : Platform) (env : Env) (w : World) (s : Guard * nat) :
  reachable P env w s ->
  distinct_keys (fst s)
  /\ forall threadId, List.length (entries_for (fst s) threadId) <= 1.
Proof.
  intros Hreach.
  assert (Hd : distinct_keys (fst s)).
  { induction Hreach as [| s op _ IH]; simpl.
    - exact I.
    - now apply run_distinct. }
  split; [exact Hd | intros threadId; now apply distinct_entries_for].
Qed.

Lemma guard_one_entry_witness :
  let s := serve Sample.platform Sample.env (OpJoin (JStr "secret") Sample.body_guid) Sample.world_ok
                 (serve Sample.platform Sample.env (OpJoin (JStr "secret") Sample.body_guid)
                        Sample.world_ok (empty_guard, 0)) in
  fst s = Sample.guard_T1
  /\ distinct_keys (fst s)
  /\ forall threadId, List.length (entries_for (fst s) threadId) <= 1.
Proof.
  split; [reflexivity |].
  apply (guard_one_entry_per_thread Sample.platform Sample.env Sample.world_ok).
  apply reach_serve. apply reach_serve. apply reach_start.
Defined.

(* ================================================================== *)
(** ** The call life cycle *)
(* ================================================================== *)

(** C5.  For a GUID-shaped [callId] whose state query Graph rejects: a 404
    is answered with the body [{ok: true, state: "not_found_or_ended"}], which
    carries no [error]; any other rejection is answered with an error whose
    [error] field is the upstream payload when there is one and the error
    message otherwise. *)
Theorem getState_not_found_is_a_state (P : Platform) (w : World) (g : Guard) (n : nat)
        (callId : string) (token : JSValue) (e : JSError) :
  isGuid P (JStr callId) = true ->
  w n GetToken = Fulfilled token ->
  w (S n) (HttpGet (callUrl callId)) = Rejected e ->
  let r := run (getState P callId) w g n in
  let status := prop (e_response e) "status" in
  (strict_equal status (JNum 404) = true ->
   result r = Normal (Json 404 (JObj [("ok", JBool true);
                                      ("state", JStr "not_found_or_ended")])))
  /\ (strict_equal status (JNum 404) = false ->
      result r = Normal (Json 500 (JObj [("error", diagnostic e)]))
      /\ (truthy (prop (e_response e) "data") = true ->
          diagnostic e = prop (e_response e) "data")).
Proof.
  intros Hguid Htoken Hget r status. subst r status.
  unfold getState. rewrite Hguid. simpl. rewrite Htoken. simpl. rewrite Hget. simpl.
  split; intros Hstatus; rewrite Hstatus; simpl.
  - reflexivity.
  - split; [reflexivity |]. intros Hdata. unfold diagnostic, js_or. now rewrite Hdata.
Qed.

Lemma getState_witness :
  result (run (getState Sample.platform Sample.call_id)
              (Sample.world_failing 404 JNull) Sample.guard_T1 0)
  = Normal (Json 404 (JObj [("ok", JBool true); ("state", JStr "not_found_or_ended")]))
  /\ result (run (getState Sample.platform Sample.call_id)
                 (Sample.world_failing 503 (JStr "busy")) Sample.guard_T1 0)
     = Normal (Json 500 (JObj [("error", JStr "busy")])).
Proof.
  split.
  - exact (proj1 (getState_not_found_is_a_state Sample.platform (Sample.world_failing 404 JNull)
                    Sample.guard_T1 0 Sample.call_id (JStr "token")
                    (Sample.upstream_error 404 JNull) eq_refl eq_refl eq_refl) eq_refl).
  - exact (proj1 (proj2 (getState_not_found_is_a_state Sample.platform
                           (Sample.world_failing 503 (JStr "busy"))
                           Sample.guard_T1 0 Sample.call_id (JStr "token")
                           (Sample.upstream_error 503 (JStr "busy")) eq_refl eq_refl eq_refl)
                        eq_refl)).
Defined.

(** C6.  What the hangup handler does when Graph rejects the termination
    request of a GUID-shaped [callId], 404 included: it answers 500 with the
    diagnostic and leaves the guard as it was.  The specification asks for a
    success on 404, which is what the state query next to it does with the
    same answer. *)
Theorem hangup_rejection_is_a_failure (P : Platform) (w : World) (g : Guard) (n : nat)
        (callId : string) (token : JSValue) (e : JSError) :
  isGuid P (JStr callId) = true ->
  w n GetToken = Fulfilled token ->
  w (S n) (HttpDelete (callUrl callId)) = Rejected e ->
  let r := run (hangup P callId) w g n in
  result r = Normal (Json 500 (JObj [("error", diagnostic e)]))
  /\ guard_after r = g.
Proof.
  intros Hguid Htoken Hdelete r. subst r.
  unfold hangup. rewrite Hguid. simpl. rewrite Htoken. simpl. rewrite Hdelete. simpl.
  split; reflexivity.
Qed.

Lemma hangup_not_found_witness :
  let r := run (hangup Sample.platform Sample.call_id)
               (Sample.world_failing 404 JNull) Sample.guard_T1 0 in
  strict_equal (prop (e_response (Sample.upstream_error 404 JNull)) "status") (JNum 404) = true
  /\ result r = Normal (Json 500 (JObj [("error", JStr "Request failed")]))
  /\ guard_after r = Sample.guard_T1.
Proof.
  split; [reflexivity |].
  exact (hangup_rejection_is_a_failure Sample.platform (Sample.world_failing 404 JNull)
           Sample.guard_T1 0 Sample.call_id (JStr "token") (Sample.upstream_error 404 JNull)
           eq_refl eq_refl eq_refl).
Defined.

(* ================================================================== *)
(** ** The organizer of a join link *)
(* ================================================================== *)

Lemma truthy_string (s : string) : truthy (JStr s) = true <-> s <> "".
Proof.
  simpl. destruct (String.eqb_spec s ""); simpl; split; congruence.
Qed.

Lemma decode_plain (s : string) : has_percent s = false -> Escaped.decode s = Some s.
Proof.
  unfold Escaped.decode.
  assert (H : has_percent s = false ->
              exists units, Escaped.read_escapes s = Some units /\ Escaped.octets units = Some s).
  { induction s as [| c rest IH]; simpl.
    - intros _. now exists [].
    - destruct (Ascii.eqb c "%"); simpl; [discriminate |].
      intros Hrest. destruct (IH Hrest) as (units & -> & Hunits).
      exists (Escaped.Plain c :: units). simpl. now rewrite Hunits. }
  intros Hs. destruct (H Hs) as (units & -> & Hunits). exact Hunits.
Qed.







(* ================================================================== *)
(** ** The join strategy *)
(* ================================================================== *)

Lemma coalesce_defined (v : JSValue) : js_coalesce v JNull <> JUndefined.
Proof. destruct v; simpl; discriminate. Qed.

(** C4.  The payload of a join, from the located meeting.  With a truthy
    [joinMeetingId] the meeting is addressed by it, together with a
    [passcode] field that is always there: the meeting's passcode, [null]
    when the meeting has none.  Otherwise the meeting is addressed by its
    [threadId] with [messageId] ["0"], the organizer and the configured
    tenant, and [allowConversationWithoutHost] set.  Both shapes carry the
    callback address, audio only and service-hosted media; and what the join
    handler posts is this payload, for the meeting it located. *)
Theorem payload_strategy (env : Env) (found_meeting organizerUserId threadId : JSValue) :
  let settings := prop found_meeting "joinMeetingIdSettings" in
  let joinMeetingId := prop settings "joinMeetingId" in
  let passcode := prop settings "passcode" in
  let p := payload env found_meeting organizerUserId threadId in
  (truthy joinMeetingId = true ->
   prop p "meetingInfo"
   = JObj [("@odata.type", JStr "#microsoft.graph.joinMeetingIdMeetingInfo");
           ("joinMeetingId", joinMeetingId);
           ("passcode", if nullish passcode then JNull else passcode)]
   /\ prop (prop p "meetingInfo") "passcode" <> JUndefined
   /\ (nullish passcode = true -> prop (prop p "meetingInfo") "passcode" = JNull)
   /\ prop p "chatInfo" = JUndefined)
  /\ (truthy joinMeetingId = false ->
      prop p "chatInfo"
      = JObj [("@odata.type", JStr "#microsoft.graph.chatInfo");
              ("threadId", threadId);
              ("messageId", JStr "0")]
      /\ prop p "meetingInfo"
         = JObj [("@odata.type", JStr "#microsoft.graph.organizerMeetingInfo");
                 ("organizer",
                  JObj [("@odata.type", JStr "#microsoft.graph.identitySet");
                        ("user", JObj [("@odata.type", JStr "#microsoft.graph.identity");
                                       ("id", organizerUserId);
                                       ("tenantId", TENANT_ID env)])]);
                 ("allowConversationWithoutHost", JBool true)])
  /\ (prop p "callbackUri" = CALLING_CALLBACK_URI env
      /\ prop p "requestedModalities" = JArr [JStr "audio"]
      /\ prop p "mediaConfig"
         = JObj [("@odata.type", JStr "#microsoft.graph.serviceHostedMediaConfig")]
      /\ prop p "tenantId" = TENANT_ID env)
  /\ (forall (P : Platform) (w : World) (g : Guard) (n : nat) (body : JSValue)
             (url : string) (posted : JSValue) (settled : Outcome),
         In (EvRequest (HttpPost url posted) settled) (events (run (join P env body) w g n)) ->
         exists located,
           truthy located = true
           /\ truthy (prop (prop located "chatInfo") "threadId") = true
           /\ url = createCallUrl
           /\ posted = payload env located
                         (tryExtractOrganizerOid P (prop (js_or body (JObj [])) "joinWebUrl"))
                         (prop (prop located "chatInfo") "threadId")).
Proof.
  intros settings joinMeetingId passcode p. subst p. unfold payload.
  fold settings. fold joinMeetingId. fold passcode.
  split; [| split; [| split]].
  - intros Hj. rewrite Hj. simpl. repeat split.
    + apply coalesce_defined.
    + intros Hp. unfold js_coalesce. now rewrite Hp.
  - intros Hj. rewrite Hj. simpl. split; reflexivity.
  - destruct (truthy joinMeetingId); simpl; repeat split.
  - intros P w g n body url posted settled.
    all_runs; intros H;
      repeat match type of H with
             | _ \/ _ => destruct H as [H | H]
             | False => destruct H
             end;
      try discriminate H.
    all: injection H as <- <- _;
      match goal with
      | Hm : truthy ?m = true, Ht : truthy (prop (prop ?m "chatInfo") "threadId") = true |- _ =>
          exists m; repeat split; assumption
      end.
Qed.

Lemma payload_witness :
  prop (prop (payload Sample.env Sample.meeting_lobby (JStr Sample.organizer_guid) (JStr "T1"))
             "meetingInfo") "passcode" = JNull
  /\ prop (payload Sample.env Sample.meeting_plain (JStr "abc") (JStr "T2")) "chatInfo"
     = JObj [("@odata.type", JStr "#microsoft.graph.chatInfo");
             ("threadId", JStr "T2");
             ("messageId", JStr "0")].
Proof.
  split.
  - exact (proj1 (proj2 (proj2 (proj1 (payload_strategy Sample.env Sample.meeting_lobby
                                         (JStr Sample.organizer_guid) (JStr "T1")) eq_refl)))
                 eq_refl).
  - exact (proj1 (proj1 (proj2 (payload_strategy Sample.env Sample.meeting_plain
                                  (JStr "abc") (JStr "T2"))) eq_refl)).
Defined.

(* ================================================================== *)
(** ** The latest transcript *)
(* ================================================================== *)

Lemma sample_collation : ConsistentCollation Sample.platform.
Proof.
  split; simpl.
  - apply String.compare_antisym.
  - intros a b c Hab Hbc.
    destruct (String.compare a b) eqn:Eab; try congruence;
      destruct (String.compare b c) eqn:Ebc; try congruence.
    + apply OrderedTypeEx.String_as_OT.cmp_eq in Eab. subst. now rewrite Ebc.
    + apply OrderedTypeEx.String_as_OT.cmp_eq in Eab. subst. now rewrite Ebc.
    + apply OrderedTypeEx.String_as_OT.cmp_eq in Ebc. subst. now rewrite Eab.
    + apply OrderedTypeEx.String_as_OT.cmp_lt in Eab, Ebc.
      assert (Hac : OrderedTypeEx.String_as_OT.cmp a c = Lt)
        by (apply OrderedTypeEx.String_as_OT.cmp_lt;
            eapply OrderedTypeEx.String_as_OT.lt_trans; eauto).
      unfold OrderedTypeEx.String_as_OT.cmp in Hac. now rewrite Hac.
Qed.

Section Selection.

Variable P : Platform.
Hypothesis collation : ConsistentCollation P.

Let has_timestamp (t : JSValue) : Prop := timestamp t <> None.

Lemma collate_refl (a : string) : localeCompare P a a = Eq.
Proof.
  pose proof (collate_antisym P collation a a) as H.
  destruct (localeCompare P a a); simpl in H; congruence.
Qed.

Lemma no_later_trans (a b c : JSValue) :
  no_later P a b -> no_later P b c -> no_later P a c.
Proof. unfold no_later, compare_timestamps. apply (collate_trans P collation). Qed.

Lemma earlier_no_later (a b : JSValue) : earlier P a b -> no_later P a b.
Proof. unfold earlier, no_later. congruence. Qed.

Lemma later_earlier (a b : JSValue) : compare_timestamps P a b = Gt -> earlier P b a.
Proof.
  unfold earlier, compare_timestamps. intros H.
  rewrite (collate_antisym P collation), H. reflexivity.
Qed.

Lemma not_later_or_earlier (a b : JSValue) : no_later P a b \/ earlier P b a.
Proof.
  destruct (compare_timestamps P a b) eqn:E.
  - left. unfold no_later. congruence.
  - left. unfold no_later. congruence.
  - right. now apply later_earlier.
Qed.

(** Below something that is later than the maximum. *)
Lemma below_later (x m y : JSValue) :
  compare_timestamps P x m = Gt -> no_later P y m -> earlier P y x.
Proof.
  intros Hxm Hym. destruct (not_later_or_earlier x y) as [Hxy | Hyx]; [| exact Hyx].
  exfalso. exact (no_later_trans _ _ _ Hxy Hym Hxm).
Qed.

Lemma compare_created_timestamps (a b : JSValue) :
  has_timestamp a -> has_timestamp b ->
  compare_created P a b = inr (compare_timestamps P a b).
Proof.
  unfold has_timestamp, compare_created, compare_timestamps, timestamp_or_empty, timestamp.
  destruct (createdDateTime_or_empty a) as [[] |]; try congruence.
  destruct (createdDateTime_or_empty b) as [[] |]; try congruence.
  reflexivity.
Qed.

Lemma insert_by_timestamp_perm (x : JSValue) (sorted : list JSValue) :
  Permutation (x :: sorted) (insert_by_timestamp P x sorted).
Proof.
  induction sorted as [| y rest IH]; simpl; auto.
  destruct (compare_timestamps P x y); auto.
  eapply perm_trans; [apply perm_swap | now apply perm_skip].
Qed.

Lemma sort_by_timestamp_perm (items : list JSValue) :
  Permutation items (sort_by_timestamp P items).
Proof.
  induction items as [| x rest IH]; simpl; auto.
  eapply perm_trans; [apply perm_skip, IH | apply insert_by_timestamp_perm].
Qed.

Lemma insert_created_total (x : JSValue) (sorted : list JSValue) :
  has_timestamp x -> Forall has_timestamp sorted ->
  insert_created P x sorted = inr (insert_by_timestamp P x sorted).
Proof.
  intros Hx. induction 1 as [| y rest Hy Hrest IH]; simpl; auto.
  rewrite (compare_created_timestamps y x Hy Hx).
  unfold compare_timestamps at 1. rewrite (collate_antisym P collation).
  fold (compare_timestamps P x y).
  destruct (compare_timestamps P x y); simpl; auto. now rewrite IH.
Qed.

Lemma sort_created_total (items : list JSValue) :
  Forall has_timestamp items ->
  sort_created P items = inr (sort_by_timestamp P items).
Proof.
  induction 1 as [| x rest Hx Hrest IH]; simpl; auto.
  rewrite IH. apply insert_created_total; auto.
  eapply Permutation_Forall; [apply sort_by_timestamp_perm | exact Hrest].
Qed.

Lemma has_timestamp_defined (t : JSValue) : has_timestamp t -> is_undefined t = false.
Proof. destruct t; simpl; auto. unfold has_timestamp, timestamp; simpl. congruence. Qed.

Lemma comparable_total (items : list JSValue) :
  Forall has_timestamp items -> comparable P items = true.
Proof.
  intros Hall. unfold comparable. rewrite Forall_forall in Hall.
  apply forallb_forall. intros a Ha. apply forallb_forall. intros b Hb.
  now rewrite (compare_created_timestamps a b (Hall a Ha) (Hall b Hb)).
Qed.

Lemma sort_outcome_total (items : list JSValue) :
  Forall has_timestamp items ->
  sort_outcome P items = inr (sort_by_timestamp P items).
Proof.
  intros Hall. unfold sort_outcome.
  assert (Hsplit : filter (fun v => negb (is_undefined v)) items = items
                   /\ filter is_undefined items = []).
  { clear collation. induction Hall as [| x rest Hx Hrest [IHkeep IHnone]]; simpl; auto.
    rewrite (has_timestamp_defined x Hx). simpl. now rewrite IHkeep. }
  destruct Hsplit as [Hkeep Hnone].
  rewrite Hkeep, Hnone, (comparable_total items Hall), (sort_created_total items Hall), app_nil_r.
  reflexivity.
Qed.

Lemma array_sort_total (items : list JSValue) :
  Forall has_timestamp items ->
  array_sort P items = Some (sort_by_timestamp P items).
Proof.
  intros Hall. unfold array_sort. now rewrite (sort_outcome_total items Hall).
Qed.

Lemma insert_by_timestamp_sorted (x : JSValue) (sorted : list JSValue) :
  Sorted (no_later P) sorted -> Sorted (no_later P) (insert_by_timestamp P x sorted).
Proof.
  induction 1 as [| y rest Hrest IH Hhd]; simpl.
  - repeat constructor.
  - destruct (compare_timestamps P x y) eqn:E.
    + constructor; [now constructor | constructor; unfold no_later; congruence].
    + constructor; [now constructor | constructor; unfold no_later; congruence].
    + constructor; auto.
      apply later_earlier, earlier_no_later in E.
      destruct rest as [| z rest']; simpl.
      * now constructor.
      * destruct (compare_timestamps P x z); constructor; auto.
        now inversion Hhd.
Qed.

Lemma sort_by_timestamp_sorted (items : list JSValue) :
  StronglySorted (no_later P) (sort_by_timestamp P items).
Proof.
  apply Sorted_StronglySorted.
  - intros a b c. apply no_later_trans.
  - induction items as [| x rest IH]; simpl.
    + constructor.
    + now apply insert_by_timestamp_sorted.
Qed.

Lemma same_time_no_later (k : string) (x y : JSValue) :
  same_time P k x = true -> same_time P k y = true -> no_later P x y.
Proof.
  unfold same_time, no_later, compare_timestamps. intros Hx Hy.
  apply (collate_trans P collation _ k).
  - destruct (localeCompare P (timestamp_or_empty x) k); congruence.
  - rewrite (collate_antisym P collation).
    destruct (localeCompare P (timestamp_or_empty y) k); simpl; congruence.
Qed.

Lemma insert_by_timestamp_stable (k : string) (x : JSValue) (sorted : list JSValue) :
  filter (same_time P k) (insert_by_timestamp P x sorted)
  = filter (same_time P k) (x :: sorted).
Proof.
  induction sorted as [| y rest IH]; simpl; auto.
  destruct (compare_timestamps P x y) eqn:E; simpl; auto.
  rewrite IH. simpl.
  destruct (same_time P k x) eqn:Hx, (same_time P k y) eqn:Hy; auto.
  exfalso. exact (same_time_no_later k x y Hx Hy E).
Qed.

Lemma sort_by_timestamp_stable (k : string) (items : list JSValue) :
  filter (same_time P k) (sort_by_timestamp P items) = filter (same_time P k) items.
Proof.
  induction items as [| x rest IH]; simpl; auto.
  rewrite insert_by_timestamp_stable. simpl. now rewrite IH.
Qed.

Lemma last_cons (a : JSValue) (l : list JSValue) :
  l <> [] -> List.last (a :: l) JUndefined = List.last l JUndefined.
Proof. destruct l; [congruence | reflexivity]. Qed.

Lemma insert_by_timestamp_nonempty (x : JSValue) (sorted : list JSValue) :
  insert_by_timestamp P x sorted <> [].
Proof.
  destruct sorted as [| y rest]; simpl; [congruence |].
  destruct (compare_timestamps P x y); congruence.
Qed.

Lemma insert_by_timestamp_last (x : JSValue) (sorted : list JSValue) :
  sorted <> [] -> StronglySorted (no_later P) sorted ->
  List.last (insert_by_timestamp P x sorted) JUndefined
  = match compare_timestamps P x (List.last sorted JUndefined) with
    | Gt => x
    | _ => List.last sorted JUndefined
    end.
Proof.
  induction sorted as [| y rest IH]; [congruence |]. intros _ Hsorted.
  inversion Hsorted as [| ? ? Hrest Hall]; subst.
  assert (Hlast : no_later P y (List.last (y :: rest) JUndefined)).
  { destruct rest as [| z rest'].
    - unfold no_later, compare_timestamps. simpl. rewrite collate_refl. congruence.
    - rewrite Forall_forall in Hall. apply Hall.
      change (In (List.last (z :: rest') JUndefined) (z :: rest')).
      destruct (exists_last (l := z :: rest')) as (front & e & Heq); [congruence |].
      rewrite Heq, last_last. apply in_or_app. right. now left. }
  simpl insert_by_timestamp.
  destruct (compare_timestamps P x y) eqn:E.
  - assert (Hx : no_later P x (List.last (y :: rest) JUndefined)).
    { eapply no_later_trans; [| exact Hlast]. unfold no_later. congruence. }
    change (List.last (x :: y :: rest) JUndefined) with (List.last (y :: rest) JUndefined).
    unfold no_later in Hx.
    destruct (compare_timestamps P x (List.last (y :: rest) JUndefined)); congruence.
  - assert (Hx : no_later P x (List.last (y :: rest) JUndefined)).
    { eapply no_later_trans; [| exact Hlast]. unfold no_later. congruence. }
    change (List.last (x :: y :: rest) JUndefined) with (List.last (y :: rest) JUndefined).
    unfold no_later in Hx.
    destruct (compare_timestamps P x (List.last (y :: rest) JUndefined)); congruence.
  - destruct rest as [| z rest'].
    + simpl. now rewrite E.
    + rewrite last_cons by apply insert_by_timestamp_nonempty.
      rewrite (last_cons y (z :: rest')) by congruence.
      apply IH; [congruence | assumption].
Qed.

Lemma sort_by_timestamp_nonempty (x : JSValue) (rest : list JSValue) :
  sort_by_timestamp P (x :: rest) <> [].
Proof. simpl. apply insert_by_timestamp_nonempty. Qed.

(** The last element of the sorted list, seen in the original list: nothing
    is later than it, and everything behind it is strictly earlier. *)
Lemma sort_by_timestamp_chosen (items : list JSValue) :
  items <> [] ->
  exists before chosen after,
    items = (before ++ chosen :: after)%list
    /\ List.last (sort_by_timestamp P items) JUndefined = chosen
    /\ Forall (fun t => no_later P t chosen) before
    /\ Forall (fun t => earlier P t chosen) after.
Proof.
  induction items as [| x rest IH]; [congruence |]. intros _.
  destruct rest as [| y rest'].
  - exists [], x, []. simpl. auto.
  - destruct IH as (before & m & after & Heq & Hlast & Hbefore & Hafter); [congruence |].
    change (sort_by_timestamp P (x :: y :: rest'))
      with (insert_by_timestamp P x (sort_by_timestamp P (y :: rest'))).
    rewrite insert_by_timestamp_last
      by (apply sort_by_timestamp_nonempty || apply sort_by_timestamp_sorted).
    rewrite Hlast.
    destruct (compare_timestamps P x m) eqn:E.
    + exists (x :: before), m, after. rewrite Heq. repeat split; auto.
      constructor; auto. unfold no_later. congruence.
    + exists (x :: before), m, after. rewrite Heq. repeat split; auto.
      constructor; auto. unfold no_later. congruence.
    + exists [], x, (y :: rest'). repeat split; auto.
      rewrite Heq. apply Forall_app. split; [| constructor].
      * eapply Forall_impl; [| exact Hbefore]. intros t Ht. simpl in Ht.
        now apply (below_later x m t).
      * now apply later_earlier.
      * eapply Forall_impl; [| exact Hafter]. intros t Ht. simpl in Ht.
        apply (below_later x m t); auto. now apply earlier_no_later.
Qed.

Lemma sorted_before (R : JSValue -> JSValue -> Prop) (before after : list JSValue) (t : JSValue) :
  StronglySorted R (before ++ t :: after)%list -> Forall (fun u => R u t) before.
Proof.
  induction before as [| u rest IH]; simpl; intros Hs; [constructor |].
  inversion Hs as [| ? ? Hrest Hall]; subst. constructor; auto.
  rewrite Forall_forall in Hall. apply Hall. apply in_or_app. right. now left.
Qed.

(** A dated entry is later than an undated one, when the empty string
    collates first. *)
Lemma dated_not_below_undated (t u : JSValue) (k : string) :
  timestamp t = Some k -> k <> "" -> localeCompare P "" k = Lt ->
  timestamp u = Some "" -> ~ no_later P t u.
Proof.
  intros Ht Hk Hlt Hu Hno. apply Hno.
  unfold compare_timestamps, timestamp_or_empty. rewrite Ht, Hu.
  rewrite (collate_antisym P collation), Hlt. reflexivity.
Qed.


End Selection.


(* ================================================================== *)
(** ** The scenarios of the specification *)
(* ================================================================== *)

(** After a successful join of the meeting of thread ["T1"], a second join
    is answered 409 with the call of the first one, and posts nothing. *)
Example second_join_conflicts :
  let first := run (join Sample.platform Sample.env Sample.body_guid) Sample.world_ok empty_guard 0 in
  let second := run (join Sample.platform Sample.env Sample.body_guid) Sample.world_ok
                    (guard_after first) (clock_after first) in
  guard_after first = Sample.guard_T1
  /\ result second
     = Normal (Json 409 (JObj [("error", JStr "Bot already joined this meeting");
                               ("callId", JStr Sample.call_id);
                               ("threadId", JStr "T1")]))
  /\ existsb is_post (events second) = false.
Proof. vm_compute. repeat split. Qed.

(** After a successful hangup of that call the guard is empty again, and the
    meeting can be joined anew. *)
Example join_after_hangup :
  let ended := run (hangup Sample.platform Sample.call_id) Sample.world_ok Sample.guard_T1 0 in
  let again := run (join Sample.platform Sample.env Sample.body_guid) Sample.world_ok
                   (guard_after ended) (clock_after ended) in
  guard_after ended = empty_guard
  /\ guard_after again = Sample.guard_T1
  /\ existsb is_post (events again) = true.
Proof. vm_compute. repeat split. Qed.

(** A [callId] that is not GUID-shaped is refused before any request. *)
Example not_a_guid_is_refused :
  run (getState Sample.platform "not-a-guid") Sample.world_ok Sample.guard_T1 0
  = {| result := Normal (Json 400 (JObj [("error", JStr "callId must be a GUID")]));
       guard_after := Sample.guard_T1; clock_after := 0; events := [] |}
  /\ run (hangup Sample.platform "not-a-guid") Sample.world_ok Sample.guard_T1 0
     = {| result := Normal (Json 400 (JObj [("error", JStr "callId must be a GUID")]));
          guard_after := Sample.guard_T1; clock_after := 0; events := [] |}.
Proof. vm_compute. split; reflexivity. Qed.

(** The window between the check and the registration: two joins of the same
    meeting that overlap both pass the check, and both are left waiting for
    their own call-creation request. *)
Example overlapping_joins_both_create :
  exists s k1 k2,
    process_reachable Sample.platform Sample.env s
    /\ shared s = empty_guard
    /\ in_flight s
       = [Await (HttpPost createCallUrl
                   (payload Sample.env Sample.meeting_lobby (JStr Sample.organizer_guid) (JStr "T1"))) k1;
          Await (HttpPost createCallUrl
                   (payload Sample.env Sample.meeting_lobby (JStr Sample.organizer_guid) (JStr "T1"))) k2].
Proof.
  pose (found := Fulfilled (JObj [("value", JArr [Sample.meeting_lobby])])).
  pose (token := Fulfilled (JStr "token")).
  eexists. eexists. eexists. split; [| split].
  - eapply process_next.
    { eapply process_next.
      { eapply process_next.
        { eapply process_next.
          { eapply process_next.
            { eapply process_next; [apply process_start |].
              apply (step_arrive _ _ _ (OpJoin (JStr "secret") Sample.body_guid)).
              vm_compute. reflexivity. }
            simpl.
            eapply (step_settle _ _ _ [] _ _ [] token); [reflexivity |].
            vm_compute. reflexivity. }
          simpl.
          eapply (step_settle _ _ _ [] _ _ [] found); [reflexivity |].
          vm_compute. reflexivity. }
        simpl.
        apply (step_arrive _ _ _ (OpJoin (JStr "secret") Sample.body_guid)).
        vm_compute. reflexivity. }
      simpl.
      eapply (step_settle _ _ _ [] _ _ [_] token); [reflexivity |].
      vm_compute. reflexivity. }
    simpl.
    eapply (step_settle _ _ _ [] _ _ [_] found); [reflexivity |].
    vm_compute. reflexivity.
  - reflexivity.
  - reflexivity.
Qed.

(* ================================================================== *)
(** ** The API key in front of the routes *)
(* ================================================================== *)

Definition key_of (op : Operation) : JSValue :=
  match op with
  | OpJoin key _ | OpGetState key _ | OpHangup key _ | OpTranscripts key _ => key
  end.

Definition handler_of (P : Platform) (env : Env) (op : Operation) : Prog Response :=
  match op with
  | OpJoin _ body => join P env body
  | OpGetState _ callId => getState P callId
  | OpHangup _ callId => hangup P callId
  | OpTranscripts _ q => transcripts P q
  end.

(** X1.  Whatever the operation, a request whose key is not the configured
    one makes no request to Graph and leaves the guard alone: it is answered
    500 when the server has no [API_KEY] (the check is not skipped) and 401
    otherwise.  With the right key the route is its handler. *)
Theorem route_requires_api_key (P : Platform) (env : Env) (op : Operation)
        (w : World) (g : Guard) (n : nat) :
  (truthy (env_API_KEY env) = false ->
   run (route P env op) w g n
   = {| result := Normal (Json 500 (JObj [("error", JStr "API_KEY not configured on server")]));
        guard_after := g; clock_after := n; events := [] |})
  /\ (truthy (env_API_KEY env) = true ->
      strict_equal (key_of op) (env_API_KEY env) = false ->
      run (route P env op) w g n
      = {| result := Normal (Json 401 (JObj [("error", JStr "Unauthorized")]));
           guard_after := g; clock_after := n; events := [] |})
  /\ (truthy (env_API_KEY env) = true ->
      strict_equal (key_of op) (env_API_KEY env) = true ->
      route P env op = handler_of P env op).
Proof.
  repeat split; intros Hkey; try intros Heq;
    destruct op; simpl in *; unfold requireApiKey; rewrite Hkey; simpl;
    try rewrite Heq; reflexivity.
Qed.

Lemma route_requires_api_key_witness :
  run (route Sample.platform Sample.env (OpJoin JUndefined Sample.body_guid))
      Sample.world_ok Sample.guard_T1 0
  = {| result := Normal (Json 401 (JObj [("error", JStr "Unauthorized")]));
       guard_after := Sample.guard_T1; clock_after := 0; events := [] |}
  /\ route Sample.platform Sample.env (OpHangup (JStr "secret") Sample.call_id)
     = hangup Sample.platform Sample.call_id.
Proof.
  split.
  - exact (proj1 (proj2 (route_requires_api_key Sample.platform Sample.env
                           (OpJoin JUndefined Sample.body_guid) Sample.world_ok Sample.guard_T1 0))
                 eq_refl eq_refl).
  - exact (proj2 (proj2 (route_requires_api_key Sample.platform Sample.env
                           (OpHangup (JStr "secret") Sample.call_id)
                           Sample.world_ok Sample.guard_T1 0))
                 eq_refl eq_refl).
Defined.

(* ================================================================== *)
(** ** Call identifiers *)
(* ================================================================== *)

Lemma forallb_hex_no_slash (s : string) :
  forallb hex_or_hyphen (list_ascii_of_string s) = true ->
  forall c, In c (list_ascii_of_string s) ->
            c <> "/"%char /\ c <> "?"%char /\ c <> "#"%char /\ c <> "."%char /\ c <> "%"%char.
Proof.
  intros Hall c Hin. rewrite forallb_forall in Hall. specialize (Hall c Hin).
  repeat split; intros ->; discriminate Hall.
Qed.

(** X2.  [isGuid] refuses every falsy value, and accepts a string exactly
    when it has 36 characters that are all hex digits or hyphens; an accepted
    [callId] therefore holds no character that could leave the
    [communications/calls/] path of the URL it is spliced into.  A [callId]
    that is refused is answered 400 by the state query and by the hangup
    before any request, and the guard stays as it is. *)
Theorem isGuid_shape_and_refusal (P : Platform) :
  (forall v, truthy v = false -> isGuid P v = false)
  /\ (forall s,
         isGuid P (JStr s) = true
         <-> String.length s = 36
             /\ forallb hex_or_hyphen (list_ascii_of_string s) = true)
  /\ (forall s,
         isGuid P (JStr s) = true ->
         forall c, In c (list_ascii_of_string s) ->
                   c <> "/"%char /\ c <> "?"%char /\ c <> "#"%char
                   /\ c <> "."%char /\ c <> "%"%char)
  /\ (forall (w : World) (g : Guard) (n : nat) (callId : string),
         isGuid P (JStr callId) = false ->
         run (getState P callId) w g n
         = {| result := Normal (Json 400 (JObj [("error", JStr "callId must be a GUID")]));
              guard_after := g; clock_after := n; events := [] |}
         /\ run (hangup P callId) w g n
            = {| result := Normal (Json 400 (JObj [("error", JStr "callId must be a GUID")]));
                 guard_after := g; clock_after := n; events := [] |}).
Proof.
  assert (Hstr : forall s, js_to_string P (js_or (JStr s) (JStr "")) = s).
  { intros s. unfold js_or. simpl. destruct (String.eqb_spec s ""); subst; reflexivity. }
  assert (Hshape : forall s,
             isGuid P (JStr s) = true
             <-> String.length s = 36
                 /\ forallb hex_or_hyphen (list_ascii_of_string s) = true).
  { intros s. unfold isGuid. rewrite Hstr, Bool.andb_true_iff, Nat.eqb_eq. reflexivity. }
  split; [| split; [exact Hshape | split]].
  - intros v Hv. unfold isGuid, js_or. rewrite Hv. reflexivity.
  - intros s H. apply forallb_hex_no_slash. now apply Hshape in H.
  - intros w g n callId H. split.
    + unfold getState. rewrite H. reflexivity.
    + unfold hangup. rewrite H. reflexivity.
Qed.

Lemma isGuid_witness :
  String.length Sample.call_id = 36
  /\ run (hangup Sample.platform "../users") Sample.world_ok Sample.guard_T1 0
     = {| result := Normal (Json 400 (JObj [("error", JStr "callId must be a GUID")]));
          guard_after := Sample.guard_T1; clock_after := 0; events := [] |}.
Proof.
  split.
  - exact (proj1 (proj1 (proj1 (proj2 (isGuid_shape_and_refusal Sample.platform))
                               Sample.call_id) eq_refl)).
  - exact (proj2 (proj2 (proj2 (proj2 (isGuid_shape_and_refusal Sample.platform)))
                        Sample.world_ok Sample.guard_T1 0 "../users" eq_refl)).
Defined.

(* ================================================================== *)
(** ** The meeting lookup *)
(* ================================================================== *)



(* ================================================================== *)
(** ** The join handler, outcome by outcome *)
(* ================================================================== *)

Definition joinWebUrl_of (body : JSValue) : JSValue := prop (js_or body (JObj [])) "joinWebUrl".
Definition first_match (data : JSValue) : JSValue := index0 (prop data "value").
Definition threadId_of (located : JSValue) : JSValue := prop (prop located "chatInfo") "threadId".

(** The first steps that the join and the transcripts handlers share: the
    link is there, its organizer is extracted, the token is granted, and the
    lookup, asked at clock [n + 1], is answered with a first match. *)
Definition locates (P : Platform) (w : World) (n : nat) (joinWebUrl token : JSValue)
           (encoded : string) (data : JSValue) : Prop :=
  truthy joinWebUrl = true
  /\ truthy (tryExtractOrganizerOid P joinWebUrl) = true
  /\ w n GetToken = Fulfilled token
  /\ encodeURIComponent P joinWebUrl = Some encoded
  /\ w (S n) (HttpGet (findOnlineMeeting_url P (tryExtractOrganizerOid P joinWebUrl) encoded))
     = Fulfilled data
  /\ truthy (first_match data) = true.

Lemma js_or_truthy (a b : JSValue) : truthy a = true -> js_or a b = a.
Proof. unfold js_or. now intros ->. Qed.

Lemma js_or_falsy (a b : JSValue) : truthy a = false -> js_or a b = b.
Proof. unfold js_or. now intros ->. Qed.

Ltac use_located Hloc :=
  let Hlink := fresh "Hlink" in
  let Horg := fresh "Horg" in
  let Htok := fresh "Htok" in
  let Henc := fresh "Henc" in
  let Hget := fresh "Hget" in
  let Hm := fresh "Hm" in
  destruct Hloc as (Hlink & Horg & Htok & Henc & Hget & Hm);
  unfold joinWebUrl_of, first_match, threadId_of in *;
  rewrite Hlink; simpl negb; cbv iota;
  rewrite Horg; simpl negb; cbv iota;
  unfold getGraphToken, await, findOnlineMeeting; rewrite Henc;
  simpl; rewrite Htok; simpl; rewrite Hget; simpl;
  rewrite (js_or_truthy _ JNull Hm); rewrite Hm; simpl negb; cbv iota.

Section JoinOutcomes.

Variable P : Platform.
Variable env : Env.
Variable w : World.
Variable g : Guard.
Variable n : nat.
Variables body token data : JSValue.
Variable encoded : string.

Let joinWebUrl : JSValue := joinWebUrl_of body.
Let organizerUserId : JSValue := tryExtractOrganizerOid P joinWebUrl.
Let lookup : Event :=
  EvRequest (HttpGet (findOnlineMeeting_url P organizerUserId encoded)) (Fulfilled data).
Let located : JSValue := first_match data.
Let threadId : JSValue := threadId_of located.
Let creation : Request := HttpPost createCallUrl (payload env located organizerUserId threadId).

Hypothesis Hlocates : locates P w n joinWebUrl token encoded data.
Hypothesis Hthread : truthy threadId = true.
Hypothesis Hfree : map_has g threadId = false.

(** The run of a join that reaches the call creation, by the answer to the
    creation request. *)
Lemma join_creation_run :
  run (join P env body) w g n
  = match w (S (S n)) creation with
    | Rejected e =>
        {| result := Normal (Json 500 (JObj [("error", diagnostic e)]));
           guard_after := g; clock_after := S (S (S n));
           events := [EvRequest GetToken (Fulfilled token); lookup; EvHas threadId false;
                      EvRequest creation (Rejected e)] |}
    | Fulfilled created =>
        if nullish created then
          {| result := Normal (Json 500 (JObj [("error", e_message (cannot_read created "id"))]));
             guard_after := g; clock_after := S (S (S n));
             events := [EvRequest GetToken (Fulfilled token); lookup; EvHas threadId false;
                        EvRequest creation (Fulfilled created)] |}
        else
          {| result := Normal (Json 200
                                 (JObj [("ok", JBool true);
                                        ("organizerUserIdUsed", organizerUserId);
                                        ("meeting", JObj [("id", prop located "id");
                                                          ("subject", js_or (prop located "subject") JNull);
                                                          ("threadId", threadId)]);
                                        ("call", created)]));
             guard_after := map_set g threadId (prop created "id");
             clock_after := S (S (S n));
             events := [EvRequest GetToken (Fulfilled token); lookup; EvHas threadId false;
                        EvRequest creation (Fulfilled created);
                        EvSet threadId (prop created "id")] |}
    end.
Proof.
  subst creation lookup threadId located organizerUserId joinWebUrl.
  unfold join. pose proof Hlocates as Hloc. use_located Hloc.
  rewrite Hthread. simpl negb. cbv iota.
  unfold activeCalls_has, activeCalls_get, activeCalls_set. simpl. rewrite Hfree. simpl.
  destruct (w (S (S n)) _) as [created | e]; simpl; [| reflexivity].
  destruct (nullish created) eqn:Hnull; simpl; [| reflexivity].
  destruct created; try discriminate Hnull; reflexivity.
Qed.

End JoinOutcomes.

(** The run of a join that finds the thread of its meeting in the guard. *)
Lemma join_conflict_run (P : Platform) (env : Env) (w : World) (g : Guard) (n : nat)
      (body token data : JSValue) (encoded : string) :
  let organizerUserId := tryExtractOrganizerOid P (joinWebUrl_of body) in
  let threadId := threadId_of (first_match data) in
  locates P w n (joinWebUrl_of body) token encoded data ->
  truthy threadId = true ->
  map_has g threadId = true ->
  run (join P env body) w g n
  = {| result := Normal (Json 409 (JObj [("error", JStr "Bot already joined this meeting");
                                         ("callId", map_get g threadId);
                                         ("threadId", threadId)]));
       guard_after := g; clock_after := S (S n);
       events := [EvRequest GetToken (Fulfilled token);
                  EvRequest (HttpGet (findOnlineMeeting_url P organizerUserId encoded))
                            (Fulfilled data);
                  EvHas threadId true; EvGet threadId] |}.
Proof.
  intros organizerUserId threadId Hloc Hthread Hhas. subst organizerUserId threadId.
  unfold join. use_located Hloc.
  rewrite Hthread. simpl negb. cbv iota.
  unfold activeCalls_has, activeCalls_get. simpl. rewrite Hhas. reflexivity.
Qed.


Lemma join_locates_sample :
  locates Sample.platform Sample.world_ok 0 (joinWebUrl_of Sample.body_guid) (JStr "token")
          "https%3A%2F%2Fteams.microsoft.com%2Fl%2Fmeetup-join%2Fm1%2F0%3Fcontext%3D%257b%2522Tid%2522%253a%2522t-1%2522%252c%2522Oid%2522%253a%25224b3f1c2a-9d8e-4f70-a1b2-c3d4e5f60718%2522%257d"
          (JObj [("value", JArr [Sample.meeting_lobby])]).
Proof. repeat split. Defined.








(** X8.  Every run of the join handler ends with a JSON answer whose status
    is 200, 400, 404, 409 or 500: no exception escapes.  It makes at most
    three requests, at most one of them a call creation.  Unless the answer
    is 200 the guard is as before and was not written; when it is 200 the
    thread was not in the guard before and is registered under the [id] of
    the call in the answer. *)
Theorem join_answers_and_registers_on_200 (P : Platform) (env : Env) (w : World) (g : Guard)
        (n : nat) (body : JSValue) :
  let r := run (join P env body) w g n in
  exists status answer,
    result r = Normal (Json status answer)
    /\ In status [200; 400; 404; 409; 500]
    /\ clock_after r <= n + 3
    /\ List.length (filter is_post (events r)) <= 1
    /\ (status <> 200 -> guard_after r = g /\ existsb is_write (events r) = false)
    /\ (status = 200 ->
        exists threadId,
          map_has g threadId = false
          /\ nullish (prop answer "call") = false
          /\ guard_after r = map_set g threadId (prop (prop answer "call") "id")).
Proof.
  all_runs; do 2 eexists;
    (split; [reflexivity |]);
    (split; [simpl; tauto |]);
    (split; [lia |]);
    (split; [simpl; lia |]);
    (split; [intros Hs; try (exfalso; apply Hs; reflexivity); split; reflexivity
            | intros Hs; try discriminate Hs]).
  eexists. simpl. repeat split; eauto.
Qed.

(* ================================================================== *)
(** ** Releasing a call *)
(* ================================================================== *)

Lemma sameValueZero_sym (a b : JSValue) : sameValueZero a b = true -> sameValueZero b a = true.
Proof.
  intros H. apply (sameValueZero_euclid b a b); [| exact H].
  apply sameValueZero_refl. destruct a, b; simpl in *; try discriminate; reflexivity.
Qed.

(** What the loop of the hangup handler does to the guard: nothing when no
    entry carries the call, and otherwise it takes out the first entry that
    does and keeps everything else in place. *)
Lemma release_call_first (g : Guard) (callId : JSValue) :
  (thread_of_call g callId = None
   /\ release_call g callId = g
   /\ forall t v, In (t, v) g -> strict_equal v callId = false)
  \/ (exists before t v after,
         g = (before ++ (t, v) :: after)%list
         /\ strict_equal v callId = true
         /\ (forall t' v', In (t', v') before -> strict_equal v' callId = false)
         /\ thread_of_call g callId = Some t
         /\ release_call g callId = (before ++ after)%list).
Proof.
  induction g as [| [k c] rest IH]; simpl.
  - left. repeat split. intros t v [].
  - destruct (strict_equal c callId) eqn:Hc.
    + right. exists [], k, c, rest. repeat split; auto. intros t' v' [].
    + destruct IH as [(Hnone & Hsame & Hall) | (before & t & v & after & Hg & Hv & Hbefore & Ht & Hrel)].
      * left. rewrite Hnone, Hsame. repeat split.
        intros t v [Heq | Hin]; [injection Heq as <- <-; exact Hc | eauto].
      * right. exists ((k, c) :: before), t, v, after. rewrite Ht, Hrel.
        repeat split; auto; [now rewrite Hg |].
        intros t' v' [Heq | Hin]; [injection Heq as <- <-; exact Hc | eauto].
Qed.

Lemma map_has_app (g1 g2 : Guard) (key : JSValue) :
  map_has (g1 ++ g2)%list key = map_has g1 key || map_has g2 key.
Proof.
  induction g1 as [| [k v] rest IH]; simpl; auto. now rewrite IH, Bool.orb_assoc.
Qed.

Lemma map_has_false (g : Guard) (key : JSValue) :
  (forall k v, In (k, v) g -> sameValueZero k key = false) -> map_has g key = false.
Proof.
  induction g as [| [k v] rest IH]; simpl; auto. intros H.
  rewrite (H k v (or_introl eq_refl)). simpl. apply IH. intros k' v' Hin. eauto.
Qed.

Lemma distinct_keys_app (g1 g2 : Guard) :
  distinct_keys (g1 ++ g2)%list ->
  distinct_keys g1 /\ distinct_keys g2
  /\ forall k1 v1 k2 v2, In (k1, v1) g1 -> In (k2, v2) g2 -> sameValueZero k1 k2 = false.
Proof.
  induction g1 as [| [k v] rest IH]; simpl.
  - intros H. repeat split; auto. intros k1 v1 k2 v2 [].
  - intros [Hhead Hrest]. destruct (IH Hrest) as (H1 & H2 & H12). repeat split; auto.
    + intros k' v' Hin. apply (Hhead k' v'). apply in_or_app. now left.
    + intros k1 v1 k2 v2 [Heq | Hin] Hin2.
      * injection Heq as <- <-. apply (Hhead k2 v2). apply in_or_app. now right.
      * eauto.
Qed.

(** With distinct keys, the thread the loop stops at is gone afterwards. *)
Lemma release_call_frees_thread (g : Guard) (callId t : JSValue) :
  distinct_keys g -> thread_of_call g callId = Some t ->
  map_has (release_call g callId) t = false.
Proof.
  intros Hd Ht.
  destruct (release_call_first g callId)
    as [(Hnone & _) | (before & t' & v & after & Hg & _ & _ & Ht' & Hrel)]; [congruence |].
  rewrite Ht in Ht'. injection Ht' as <-. rewrite Hrel, map_has_app.
  rewrite Hg in Hd. apply distinct_keys_app in Hd. destruct Hd as (_ & Hafter & Hcross).
  simpl in Hafter. destruct Hafter as [Hhead _].
  rewrite (map_has_false before t), (map_has_false after t); auto.
  - intros k v' Hin. destruct (sameValueZero k t) eqn:Hk; auto.
    apply sameValueZero_sym in Hk. rewrite (Hhead k v' Hin) in Hk. discriminate.
  - intros k v' Hin. apply (Hcross k v' t v Hin). now left.
Qed.

(** X9.  A hangup of a GUID-shaped call that Graph accepts answers 200 with
    the [callId] and has run the release loop once: the guard loses the first
    entry whose value is that [callId], if there is one, and every other
    entry stays where it was (a second thread registered under the same call
    stays too).  With distinct keys the thread that was released is no longer
    in the guard, so it can be joined again. *)
Theorem hangup_releases_first_entry (P : Platform) (w : World) (g : Guard) (n : nat)
        (callId : string) (token deleted : JSValue) :
  isGuid P (JStr callId) = true ->
  w n GetToken = Fulfilled token ->
  w (S n) (HttpDelete (callUrl callId)) = Fulfilled deleted ->
  let r := run (hangup P callId) w g n in
  r = {| result := Normal (Json 200 (JObj [("ok", JBool true); ("callId", JStr callId)]));
         guard_after := release_call g (JStr callId);
         clock_after := S (S n);
         events := [EvRequest GetToken (Fulfilled token);
                    EvRequest (HttpDelete (callUrl callId)) (Fulfilled deleted);
                    EvRelease (JStr callId)] |}
  /\ ((guard_after r = g
       /\ forall t v, In (t, v) g -> strict_equal v (JStr callId) = false)
      \/ (exists before t after,
             g = (before ++ (t, JStr callId) :: after)%list
             /\ (forall t' v', In (t', v') before -> strict_equal v' (JStr callId) = false)
             /\ guard_after r = (before ++ after)%list
             /\ (distinct_keys g -> map_has (guard_after r) t = false))).
Proof.
  intros Hguid Htok Hdel r.
  assert (Hr : r = {| result := Normal (Json 200 (JObj [("ok", JBool true); ("callId", JStr callId)]));
                      guard_after := release_call g (JStr callId);
                      clock_after := S (S n);
                      events := [EvRequest GetToken (Fulfilled token);
                                 EvRequest (HttpDelete (callUrl callId)) (Fulfilled deleted);
                                 EvRelease (JStr callId)] |}).
  { subst r. unfold hangup. rewrite Hguid. simpl. rewrite Htok. simpl. rewrite Hdel. reflexivity. }
  split; [exact Hr |]. rewrite Hr. simpl.
  destruct (release_call_first g (JStr callId))
    as [(_ & Hsame & Hall) | (before & t & v & after & Hg & Hv & Hbefore & Ht & Hrel)].
  - left. split; assumption.
  - right. exists before, t, after.
    assert (Hvs : v = JStr callId).
    { destruct v; simpl in Hv; try discriminate. apply String.eqb_eq in Hv. now subst. }
    subst v. repeat split; auto.
    intros Hd. now apply release_call_frees_thread.
Qed.

Lemma hangup_releases_witness :
  guard_after (run (hangup Sample.platform Sample.call_id) Sample.world_ok
                   [(JStr "T0", JStr "other"); (JStr "T1", JStr Sample.call_id);
                    (JStr "T2", JStr Sample.call_id)] 0)
  = [(JStr "T0", JStr "other"); (JStr "T2", JStr Sample.call_id)].
Proof.
  exact (f_equal guard_after
           (proj1 (hangup_releases_first_entry Sample.platform Sample.world_ok
                     [(JStr "T0", JStr "other"); (JStr "T1", JStr Sample.call_id);
                      (JStr "T2", JStr Sample.call_id)] 0
                     Sample.call_id (JStr "token") JUndefined eq_refl eq_refl eq_refl))).
Defined.

Lemma release_after_set (g : Guard) (threadId : JSValue) (callId : string) :
  map_has g threadId = false ->
  (forall t v, In (t, v) g -> strict_equal v (JStr callId) = false) ->
  release_call (map_set g threadId (JStr callId)) (JStr callId) = g.
Proof.
  induction g as [| [k c] rest IH]; simpl.
  - intros _ _. now rewrite String.eqb_refl.
  - intros Hhas Hall. apply Bool.orb_false_iff in Hhas. destruct Hhas as [Hk Hrest].
    rewrite Hk. simpl. rewrite (Hall k c (or_introl eq_refl)).
    rewrite IH; auto. intros t v Hin. eauto.
Qed.



(** X11.  Every run of the hangup handler ends with a JSON answer of status
    200, 400 or 500 after at most two requests, none of them a call creation.
    It never adds to the guard, it keeps every entry whose value is not the
    [callId] (in particular every entry whose value is not a string), and
    unless the answer is 200 it keeps the guard as it is. *)
Theorem hangup_only_releases_its_call (P : Platform) (w : World) (g : Guard) (n : nat)
        (callId : string) :
  let r := run (hangup P callId) w g n in
  exists status answer,
    result r = Normal (Json status answer)
    /\ In status [200; 400; 500]
    /\ clock_after r <= n + 2
    /\ existsb is_post (events r) = false
    /\ (forall e, In e (guard_after r) -> In e g)
    /\ (forall t v, In (t, v) g -> strict_equal v (JStr callId) = false ->
                    In (t, v) (guard_after r))
    /\ (status <> 200 -> guard_after r = g).
Proof.
  assert (Hkeep : forall t v, In (t, v) g -> strict_equal v (JStr callId) = false ->
                              In (t, v) (release_call g (JStr callId))).
  { intros t v Hin Hv.
    destruct (release_call_first g (JStr callId))
      as [(_ & Hsame & _) | (before & t' & v' & after & Hg & Hv' & _ & _ & Hrel)].
    - now rewrite Hsame.
    - rewrite Hrel. rewrite Hg in Hin. apply in_app_or in Hin. apply in_or_app.
      destruct Hin as [Hin | [Heq | Hin]]; auto.
      injection Heq as <- <-. congruence. }
  all_runs; do 2 eexists;
    (split; [reflexivity |]);
    (split; [simpl; tauto |]);
    (split; [lia |]);
    (split; [reflexivity |]);
    (split; [intros entry Hentry; try exact Hentry;
             now apply release_call_entries in Hentry |]);
    (split; [intros thread value Hin Hv; try exact Hin; now apply Hkeep |]);
    intros Hs; try reflexivity; exfalso; apply Hs; reflexivity.
Qed.

(* ================================================================== *)
(** ** The handlers that only read *)
(* ================================================================== *)

(** A token request or a GET. *)
Definition is_read (ev : Event) : bool :=
  match ev with
  | EvRequest GetToken _ | EvRequest (HttpGet _) _ => true
  | _ => false
  end.

(** X12.  Every run of the state query ends with a JSON answer of status
    200, 400, 404 or 500 after at most two requests; it only asks for the
    token and reads, and it neither consults nor changes the guard. *)
Theorem getState_only_reads (P : Platform) (w : World) (g : Guard) (n : nat) (callId : string) :
  let r := run (getState P callId) w g n in
  exists status answer,
    result r = Normal (Json status answer)
    /\ In status [200; 400; 404; 500]
    /\ clock_after r <= n + 2
    /\ forallb is_read (events r) = true
    /\ guard_after r = g.
Proof.
  all_runs; do 2 eexists;
    (split; [reflexivity |]);
    (split; [simpl; tauto |]);
    (split; [lia |]);
    split; reflexivity.
Qed.

(** X13.  The [catch] of the state query also covers the token request: when
    the token request is rejected with a response of status 404, the answer
    is [not_found_or_ended] although the call was never asked for; with any
    other rejection of the token request it is a 500 with the diagnostic. *)
Theorem getState_token_rejection (P : Platform) (w : World) (g : Guard) (n : nat)
        (callId : string) (e : JSError) :
  isGuid P (JStr callId) = true ->
  w n GetToken = Rejected e ->
  let r := run (getState P callId) w g n in
  events r = [EvRequest GetToken (Rejected e)]
  /\ (strict_equal (prop (e_response e) "status") (JNum 404) = true ->
      result r = Normal (Json 404 (JObj [("ok", JBool true);
                                         ("state", JStr "not_found_or_ended")])))
  /\ (strict_equal (prop (e_response e) "status") (JNum 404) = false ->
      result r = Normal (Json 500 (JObj [("error", diagnostic e)]))).
Proof.
  intros Hguid Htok r. subst r. unfold getState. rewrite Hguid. simpl. rewrite Htok. simpl.
  destruct (strict_equal (prop (e_response e) "status") (JNum 404)); simpl;
    repeat split; intros Hs; (reflexivity || discriminate Hs).
Qed.

Lemma getState_token_rejection_witness :
  let w := fun (_ : nat) (_ : Request) => Rejected (Sample.upstream_error 404 JNull) in
  result (run (getState Sample.platform Sample.call_id) w empty_guard 0)
  = Normal (Json 404 (JObj [("ok", JBool true); ("state", JStr "not_found_or_ended")])).
Proof.
  intros w.
  exact (proj1 (proj2 (getState_token_rejection Sample.platform w empty_guard 0 Sample.call_id
                         (Sample.upstream_error 404 JNull) eq_refl eq_refl))
               eq_refl).
Defined.

(** X14.  A state query that Graph answers relays the [id] and the [state]
    of the call as they are, and [terminationReason] as [null] when it is
    missing or falsy. *)
Theorem getState_relays_call (P : Platform) (w : World) (g : Guard) (n : nat)
        (callId : string) (token data : JSValue) :
  isGuid P (JStr callId) = true ->
  w n GetToken = Fulfilled token ->
  w (S n) (HttpGet (callUrl callId)) = Fulfilled data ->
  exists reason,
    result (run (getState P callId) w g n)
    = Normal (Json 200 (JObj [("ok", JBool true);
                              ("id", prop data "id");
                              ("state", prop data "state");
                              ("terminationReason", reason)]))
    /\ (truthy (prop data "terminationReason") = true -> reason = prop data "terminationReason")
    /\ (truthy (prop data "terminationReason") = false -> reason = JNull)
    /\ reason <> JUndefined.
Proof.
  intros Hguid Htok Hget. unfold getState. rewrite Hguid. simpl. rewrite Htok. simpl.
  rewrite Hget. simpl. eexists. split; [reflexivity |]. unfold js_or.
  destruct (truthy (prop data "terminationReason")) eqn:Ht; repeat split;
    try discriminate; auto.
  intros Hu. rewrite Hu in Ht. discriminate Ht.
Qed.

Lemma getState_relays_witness :
  exists reason,
    result (run (getState Sample.platform Sample.call_id)
                (fun _ r => match r with
                            | HttpGet _ => Fulfilled Sample.created_call
                            | _ => Sample.world_ok 0 r
                            end)
                empty_guard 0)
    = Normal (Json 200 (JObj [("ok", JBool true);
                              ("id", JStr Sample.call_id);
                              ("state", JStr "establishing");
                              ("terminationReason", reason)]))
    /\ reason = JNull.
Proof.
  destruct (getState_relays_call Sample.platform
              (fun _ r => match r with
                          | HttpGet _ => Fulfilled Sample.created_call
                          | _ => Sample.world_ok 0 r
                          end)
              empty_guard 0 Sample.call_id (JStr "token") Sample.created_call
              eq_refl eq_refl eq_refl)
    as (reason & Hres & _ & Hnull & _).
  exists reason. split; [exact Hres | exact (Hnull eq_refl)].
Defined.

(** *** Transcripts *)

Definition transcripts_listUrl (P : Platform) (organizerUserId meetingId : JSValue) : string :=
  "https://graph.microsoft.com/v1.0/users/" ++ js_to_string P organizerUserId
    ++ "/onlineMeetings/" ++ js_to_string P meetingId ++ "/transcripts".

Definition transcripts_contentUrl (P : Platform) (organizerUserId meetingId transcriptId : JSValue)
  : string :=
  "https://graph.microsoft.com/v1.0/users/" ++ js_to_string P organizerUserId
    ++ "/onlineMeetings/" ++ js_to_string P meetingId
    ++ "/transcripts/" ++ js_to_string P transcriptId ++ "/content".

(** X15.  Every run of the transcripts handler ends with an answer, after at
    most four requests that are all token requests or GETs: either a JSON
    answer of status 400, 404 or 500, or the transcript sent with status 200
    as [text/vtt].  The guard is neither consulted nor changed. *)
Theorem transcripts_only_reads (P : Platform) (w : World) (g : Guard) (n : nat)
        (query_joinWebUrl : JSValue) :
  let r := run (transcripts P query_joinWebUrl) w g n in
  ((exists status answer,
       result r = Normal (Json status answer) /\ In status [400; 404; 500])
   \/ (exists content,
          result r = Normal (Send 200 "text/vtt; charset=utf-8" content)
          /\ clock_after r = n + 4))
  /\ clock_after r <= n + 4
  /\ forallb is_read (events r) = true
  /\ guard_after r = g.
Proof.
  all_runs;
    (split; [first [ left; do 2 eexists; split; [reflexivity | simpl; tauto]
                   | right; eexists; split; [reflexivity | lia] ]
            | split; [lia | split; reflexivity]]).
Qed.


Lemma transcripts_locates_sample (w : World) :
  (forall n, w n GetToken = Fulfilled (JStr "token")) ->
  (forall url, w 1 (HttpGet url) = Fulfilled (JObj [("value", JArr [Sample.meeting_lobby])])) ->
  locates Sample.platform w 0 (JStr Sample.link_guid) (JStr "token")
          "https%3A%2F%2Fteams.microsoft.com%2Fl%2Fmeetup-join%2Fm1%2F0%3Fcontext%3D%257b%2522Tid%2522%253a%2522t-1%2522%252c%2522Oid%2522%253a%25224b3f1c2a-9d8e-4f70-a1b2-c3d4e5f60718%2522%257d"
          (JObj [("value", JArr [Sample.meeting_lobby])]).
Proof.
  intros Htok Hget. repeat split; auto.
Defined.


(** The run of the transcripts handler once the sort has returned: the entry
    popped from the sorted array, when it is not [null], is fetched by its
    [id]. *)
Lemma transcripts_selected_run (P : Platform) (w : World) (g : Guard) (n : nat)
      (query_joinWebUrl token data listing : JSValue) (encoded : string)
      (items sorted : list JSValue) :
  let organizerUserId := tryExtractOrganizerOid P query_joinWebUrl in
  let meetingId := prop (first_match data) "id" in
  let listUrl := transcripts_listUrl P organizerUserId meetingId in
  let contentUrl :=
    transcripts_contentUrl P organizerUserId meetingId (prop (array_pop sorted) "id") in
  locates P w n query_joinWebUrl token encoded data ->
  w (S (S n)) (HttpGet listUrl) = Fulfilled listing ->
  prop listing "value" = JArr items ->
  items <> [] ->
  sort_outcome P items = inr sorted ->
  nullish (array_pop sorted) = false ->
  let r := run (transcripts P query_joinWebUrl) w g n in
  events r
  = [EvRequest GetToken (Fulfilled token);
     EvRequest (HttpGet (findOnlineMeeting_url P organizerUserId encoded)) (Fulfilled data);
     EvRequest (HttpGet listUrl) (Fulfilled listing);
     EvRequest (HttpGet contentUrl) (w (S (S (S n))) (HttpGet contentUrl))]
  /\ (forall content,
         w (S (S (S n))) (HttpGet contentUrl) = Fulfilled content ->
         result r = Normal (Send 200 "text/vtt; charset=utf-8" content))
  /\ (forall e,
         w (S (S (S n))) (HttpGet contentUrl) = Rejected e ->
         result r = Normal (Json 500 (JObj [("error", diagnostic e)]))).
Proof.
  intros organizerUserId meetingId listUrl contentUrl Hloc Hlist Hvalue Hne Hsort Hchosen r.
  subst r contentUrl listUrl meetingId organizerUserId.
  unfold transcripts_listUrl, transcripts_contentUrl in *.
  unfold transcripts. use_located Hloc. simpl.
  match goal with
  | |- context [w (S (S n)) (HttpGet ?u)] =>
      replace (w (S (S n)) (HttpGet u)) with (Fulfilled listing) by (symmetry; exact Hlist)
  end.
  simpl.
  rewrite Hvalue. simpl js_or. cbv beta iota.
  assert (Hlen : length_truthy (JArr items) = true) by (destruct items; [congruence | reflexivity]).
  unfold js_or. simpl truthy. cbv iota. rewrite Hlen. simpl negb. cbv iota.
  rewrite Hsort. cbv beta iota zeta. rewrite Hchosen. simpl.
  destruct (w (S (S (S n))) _) as [content | e]; simpl; repeat split;
    intros x Hx; (discriminate Hx || (injection Hx as <-; reflexivity)).
Qed.

Lemma latest_sort_outcome (P : Platform) (items : list JSValue) (chosen : JSValue) :
  latest P items = Some chosen ->
  exists sorted, sort_outcome P items = inr sorted /\ array_pop sorted = chosen.
Proof.
  unfold latest, array_sort. destruct (sort_outcome P items) as [e | sorted]; simpl.
  - discriminate.
  - intros H. injection H as <-. now exists sorted.
Qed.



(** An entry whose [createdDateTime] is a number: the outcome is the
    engine's.  On the sample engine, when the entry is listed second it is
    the receiver of the first comparison, the sort raises, and the handler
    answers 500 after three requests; listed first it is only ever the
    argument, is converted to a string, and the sort returns: ["5"] collates
    after the timestamp, and the entry is the one fetched. *)
Example number_for_a_timestamp :
  let numbered := JObj [("id", JStr "tr-5"); ("createdDateTime", JNum 5)] in
  let w := fun (listing : list JSValue) (n : nat) (r : Request) =>
             match r, n with
             | GetToken, _ => Fulfilled (JStr "token")
             | _, 1 => Fulfilled (JObj [("value", JArr [Sample.meeting_lobby])])
             | _, 2 => Fulfilled (JObj [("value", JArr listing)])
             | _, _ => Fulfilled (JStr "WEBVTT")
             end in
  let second := run (transcripts Sample.platform (JStr Sample.link_guid))
                    (w [Sample.transcript_1; numbered]) empty_guard 0 in
  let first := run (transcripts Sample.platform (JStr Sample.link_guid))
                   (w [numbered; Sample.transcript_1]) empty_guard 0 in
  result second
  = Normal (Json 500 (JObj [("error", e_message localeCompare_not_a_function)]))
  /\ clock_after second = 3
  /\ nth_error (events first) 3
     = Some (EvRequest
               (HttpGet "https://graph.microsoft.com/v1.0/users/4b3f1c2a-9d8e-4f70-a1b2-c3d4e5f60718/onlineMeetings/M1/transcripts/tr-5/content")
               (Fulfilled (JStr "WEBVTT")))
  /\ result first = Normal (Send 200 "text/vtt; charset=utf-8" (JStr "WEBVTT")).
Proof. vm_compute. repeat split. Qed.

(* ================================================================== *)
(** ** The selection rule of the specification *)
(* ================================================================== *)

(** The rule in the words of the specification, to hold the handler against:
    the creation timestamp of a transcript is the string that it carries
    under [createdDateTime]; timestamps are compared as strings, by
    [localeCompare]. *)
Definition creation_timestamp (t : JSValue) : option string :=
  match prop t "createdDateTime" with
  | JStr k => Some k
  | _ => None
  end.

Definition created_no_later (P : Platform) (a b : JSValue) : Prop :=
  exists ka kb,
    creation_timestamp a = Some ka /\ creation_timestamp b = Some kb
    /\ localeCompare P ka kb <> Gt.

Definition created_earlier (P : Platform) (a b : JSValue) : Prop :=
  exists ka kb,
    creation_timestamp a = Some ka /\ creation_timestamp b = Some kb
    /\ localeCompare P ka kb = Lt.

(** The transcripts created at the time [k]. *)
Definition created_at_time (P : Platform) (k : string) (t : JSValue) : bool :=
  match creation_timestamp t with
  | Some kt => match localeCompare P kt k with
               | Eq => true
               | _ => false
               end
  | None => false
  end.

(** Two places in one list: the same place, or one before the other. *)
Lemma two_places {A : Type} (b1 a1 b2 a2 : list A) (x y : A) :
  (b1 ++ x :: a1 = b2 ++ y :: a2)%list ->
  (b1 = b2 /\ x = y /\ a1 = a2)
  \/ (In y a1 /\ In x b2)
  \/ (In x a2 /\ In y b1).
Proof.
  revert b2. induction b1 as [| z b1' IH]; intros [| z' b2']; simpl; intros Heq.
  - injection Heq as -> ->. now left.
  - injection Heq as -> ->. right. left. split; [| now left].
    apply in_or_app. right. now left.
  - injection Heq as -> <-. right. right. split; [| now left].
    apply in_or_app. right. now left.
  - injection Heq as -> Heq. destruct (IH b2' Heq) as [(-> & -> & ->) | [[Hy Hx] | [Hx Hy]]].
    + now left.
    + right. left. split; [exact Hy | now right].
    + right. right. split; [exact Hx | now right].
Qed.

Section LatestTranscript.

Variable P : Platform.
Hypothesis collation : ConsistentCollation P.

Let dated (t : JSValue) : Prop := creation_timestamp t <> None.

Lemma creation_timestamp_compared (t : JSValue) (k : string) :
  creation_timestamp t = Some k -> timestamp t = Some k.
Proof.
  unfold creation_timestamp, timestamp, createdDateTime_or_empty.
  destruct t; simpl; try discriminate.
  destruct (lookup "createdDateTime" fields); try discriminate.
  intros H. injection H as ->. unfold js_or. simpl.
  destruct (String.eqb_spec k ""); simpl; congruence.
Qed.

Lemma dated_compared (t : JSValue) : dated t -> timestamp t <> None.
Proof.
  unfold dated. destruct (creation_timestamp t) as [k |] eqn:Hk; [| congruence].
  intros _. rewrite (creation_timestamp_compared t k Hk). discriminate.
Qed.

Lemma all_dated_compared (items : list JSValue) :
  Forall dated items -> Forall (fun t => timestamp t <> None) items.
Proof. apply Forall_impl. exact dated_compared. Qed.

Lemma dated_not_null (t : JSValue) : dated t -> nullish t = false.
Proof. unfold dated, creation_timestamp. destruct t; simpl; congruence. Qed.

Lemma created_no_later_compared (a b : JSValue) :
  dated a -> dated b -> no_later P a b -> created_no_later P a b.
Proof.
  unfold dated, no_later, compare_timestamps, timestamp_or_empty, created_no_later.
  destruct (creation_timestamp a) as [ka |] eqn:Ha; [| congruence].
  destruct (creation_timestamp b) as [kb |] eqn:Hb; [| congruence].
  rewrite (creation_timestamp_compared a ka Ha), (creation_timestamp_compared b kb Hb).
  intros _ _ H. now exists ka, kb.
Qed.

Lemma created_earlier_compared (a b : JSValue) :
  dated a -> dated b -> earlier P a b -> created_earlier P a b.
Proof.
  unfold dated, earlier, compare_timestamps, timestamp_or_empty, created_earlier.
  destruct (creation_timestamp a) as [ka |] eqn:Ha; [| congruence].
  destruct (creation_timestamp b) as [kb |] eqn:Hb; [| congruence].
  rewrite (creation_timestamp_compared a ka Ha), (creation_timestamp_compared b kb Hb).
  intros _ _ H. now exists ka, kb.
Qed.

Lemma created_at_time_compared (k : string) (items : list JSValue) :
  Forall dated items ->
  filter (created_at_time P k) items = filter (same_time P k) items.
Proof.
  intros Hall. apply filter_ext_in. intros t Hin.
  rewrite Forall_forall in Hall. specialize (Hall t Hin).
  unfold dated in Hall. unfold created_at_time, same_time, timestamp_or_empty.
  destruct (creation_timestamp t) as [kt |] eqn:Ht; [| congruence].
  now rewrite (creation_timestamp_compared t kt Ht).
Qed.

Lemma sorted_by_creation (items : list JSValue) :
  Forall dated items ->
  StronglySorted (no_later P) items -> StronglySorted (created_no_later P) items.
Proof.
  intros Hall Hsorted. induction Hsorted as [| t rest Hrest IH Hhead].
  - constructor.
  - inversion Hall as [| ? ? Ht Hall']; subst. constructor; [now apply IH |].
    rewrite Forall_forall in *. intros u Hu.
    apply created_no_later_compared; auto.
Qed.

(** The entry that the sort leaves last, seen in the list as it came. *)
Lemma latest_in_place (items : list JSValue) :
  items <> [] ->
  Forall dated items ->
  exists sorted chosen,
    array_sort P items = Some sorted
    /\ Permutation items sorted
    /\ StronglySorted (created_no_later P) sorted
    /\ (forall k, filter (created_at_time P k) sorted = filter (created_at_time P k) items)
    /\ latest P items = Some chosen
    /\ chosen = List.last sorted JUndefined
    /\ exists before after,
        items = (before ++ chosen :: after)%list
        /\ Forall (fun t => created_no_later P t chosen) before
        /\ Forall (fun t => created_earlier P t chosen) after.
Proof.
  intros Hne Hall.
  pose proof (all_dated_compared items Hall) as Hcompared.
  destruct (sort_by_timestamp_chosen P collation items Hne)
    as (before & chosen & after & Heq & Hlast & Hb & Ha).
  pose proof (sort_by_timestamp_perm P items) as Hperm.
  assert (Hsorted_dated : Forall dated (sort_by_timestamp P items))
    by (eapply Permutation_Forall; [exact Hperm | exact Hall]).
  assert (Hchosen : dated chosen).
  { rewrite Forall_forall in Hall. apply Hall. rewrite Heq. apply in_or_app. right. now left. }
  exists (sort_by_timestamp P items), chosen.
  unfold latest, array_pop. rewrite (array_sort_total P collation items Hcompared). simpl.
  split; [reflexivity |]. split; [exact Hperm |].
  split; [apply sorted_by_creation; [exact Hsorted_dated | apply sort_by_timestamp_sorted; exact collation] |].
  split.
  { intros k. rewrite (created_at_time_compared k _ Hsorted_dated),
      (created_at_time_compared k _ Hall).
    apply sort_by_timestamp_stable. exact collation. }
  split; [now rewrite Hlast |]. split; [now rewrite Hlast |].
  exists before, after. split; [exact Heq |].
  rewrite Heq in Hall. apply Forall_app in Hall. destruct Hall as [Hall_b Hall_a].
  inversion Hall_a as [| ? ? _ Hall_a']; subst.
  rewrite Forall_forall in Hb, Ha, Hall_b, Hall_a'.
  split; apply Forall_forall; intros t Ht.
  - apply created_no_later_compared; auto.
  - apply created_earlier_compared; auto.
Qed.

(** Conversely, the place decides: the entry that nothing before it is later
    than, and that everything behind it is earlier than, is the one
    selected. *)
Lemma latest_by_place (before after : list JSValue) (x : JSValue) :
  Forall dated (before ++ x :: after)%list ->
  Forall (fun t => created_no_later P t x) before ->
  Forall (fun t => created_earlier P t x) after ->
  latest P (before ++ x :: after)%list = Some x.
Proof.
  intros Hall Hb Ha.
  destruct (latest_in_place (before ++ x :: after)%list) as
    (sorted & chosen & _ & _ & _ & _ & Hlatest & _ & before' & after' & Heq & Hb' & Ha');
    [now destruct before | exact Hall |].
  rewrite Hlatest. f_equal.
  rewrite Forall_forall in Hb, Ha, Hb', Ha'.
  assert (Hclash : forall a b, created_no_later P a b -> created_earlier P b a -> False).
  { intros a b (ka & kb & Hka & Hkb & Hle) (kb' & ka' & Hkb' & Hka' & Hlt).
    rewrite Hka in Hka'. injection Hka' as <-. rewrite Hkb in Hkb'. injection Hkb' as <-.
    apply Hle. rewrite (collate_antisym P collation), Hlt. reflexivity. }
  destruct (two_places _ _ _ _ _ _ Heq) as [(_ & Hx & _) | [[Hc Hx] | [Hx Hc]]].
  - now symmetry.
  - exfalso. exact (Hclash x chosen (Hb' x Hx) (Ha chosen Hc)).
  - exfalso. exact (Hclash chosen x (Hb chosen Hc) (Ha' x Hx)).
Qed.


End LatestTranscript.


(* ================================================================== *)
(** ** The environment check and the debug route *)
(* ================================================================== *)

(** The two variables of [process.env] that hold the application's
    credentials: [CLIENT_ID] and [CLIENT_SECRET]. *)
Record Credentials : Type := {
  env_MICROSOFT_APP_ID : JSValue;
  env_MICROSOFT_APP_PASSWORD : JSValue
}.

(** The [missing] list of [assertEnv]; the warning is printed when it is not
    empty. *)
Definition assertEnv_missing (env : Env) (creds : Credentials) : list string :=
  ((if negb (truthy (TENANT_ID env)) then ["TENANT_ID"] else [])
     ++ (if negb (truthy (env_MICROSOFT_APP_ID creds)) then ["MICROSOFT_APP_ID"] else [])
     ++ (if negb (truthy (env_MICROSOFT_APP_PASSWORD creds)) then ["MICROSOFT_APP_PASSWORD"] else []))%list.

(** [GET /debug/env], which is not behind [requireApiKey]. *)
Definition debug_env (env : Env) (creds : Credentials) : Response :=
  Json 200 (JObj [("TENANT_ID", js_or (TENANT_ID env) JNull);
                  ("MICROSOFT_APP_ID",
                   if truthy (env_MICROSOFT_APP_ID creds) then JStr "SET" else JNull);
                  ("MICROSOFT_APP_PASSWORD",
                   if truthy (env_MICROSOFT_APP_PASSWORD creds) then JStr "SET" else JNull);
                  ("CALLING_CALLBACK_URI", CALLING_CALLBACK_URI env)]).

Definition answer_of (r : Response) : JSValue :=
  match r with
  | Json _ answer => answer
  | Send _ _ answer => answer
  end.

(** X18.  The debug route shows the tenant and the callback address, but of
    the application id and secret only whether they are set: two
    environments that differ in these two values alone, both set or both
    unset, get the same answer.  What it shows as [null] is exactly what the
    start-up check lists as missing, and the check lists nothing exactly
    when the three variables are set. *)
Theorem debug_env_masks_credentials (env : Env) :
  (forall c1 c2,
      truthy (env_MICROSOFT_APP_ID c1) = truthy (env_MICROSOFT_APP_ID c2) ->
      truthy (env_MICROSOFT_APP_PASSWORD c1) = truthy (env_MICROSOFT_APP_PASSWORD c2) ->
      debug_env env c1 = debug_env env c2
      /\ assertEnv_missing env c1 = assertEnv_missing env c2)
  /\ (forall creds name,
         In name ["TENANT_ID"; "MICROSOFT_APP_ID"; "MICROSOFT_APP_PASSWORD"] ->
         (In name (assertEnv_missing env creds)
          <-> prop (answer_of (debug_env env creds)) name = JNull))
  /\ (forall creds,
         assertEnv_missing env creds = []
         <-> truthy (TENANT_ID env) = true
             /\ truthy (env_MICROSOFT_APP_ID creds) = true
             /\ truthy (env_MICROSOFT_APP_PASSWORD creds) = true).
Proof.
  split; [| split].
  - intros c1 c2 Hid Hpw. unfold debug_env, assertEnv_missing. rewrite Hid, Hpw. split; reflexivity.
  - intros creds name Hname. unfold debug_env, assertEnv_missing, js_or. simpl in Hname.
    destruct Hname as [<- | [<- | [<- | []]]];
      destruct (truthy (TENANT_ID env)) eqn:Ht,
               (truthy (env_MICROSOFT_APP_ID creds)) eqn:Hi,
               (truthy (env_MICROSOFT_APP_PASSWORD creds)) eqn:Hp;
      simpl; split; intros H;
      repeat match goal with
             | H : _ \/ _ |- _ => destruct H as [H | H]
             | H : False |- _ => destruct H
             end;
      try discriminate; try reflexivity; auto;
      try (rewrite H in Ht; discriminate Ht).
  - intros creds. unfold assertEnv_missing.
    destruct (truthy (TENANT_ID env)), (truthy (env_MICROSOFT_APP_ID creds)),
             (truthy (env_MICROSOFT_APP_PASSWORD creds)); simpl; split;
      intros H; try discriminate H; try reflexivity; auto;
      destruct H as (H1 & H2 & H3); discriminate.
Qed.

Lemma debug_env_witness :
  debug_env Sample.env {| env_MICROSOFT_APP_ID := JStr "app-1";
                          env_MICROSOFT_APP_PASSWORD := JStr "s3cret" |}
  = debug_env Sample.env {| env_MICROSOFT_APP_ID := JStr "app-2";
                            env_MICROSOFT_APP_PASSWORD := JStr "other" |}.
Proof.
  exact (proj1 (proj1 (debug_env_masks_credentials Sample.env) _ _ eq_refl eq_refl)).
Defined.

(* ================================================================== *)
(** ** The first lookup: raw filter, encoded filter, beta endpoint *)
(* ================================================================== *)

(** The build that took [organizerUserId] from the request looked the
    meeting up with a cascade of requests. *)
Module FallbackLookup.

(** [String(joinWebUrl).replace(/'/g, "''")], on the string. *)
Fixpoint escape_quotes (s : string) : string :=
  match s with
  | EmptyString => EmptyString
  | String c rest =>
      if Ascii.eqb c "'"%char then String "'" (String "'" (escape_quotes rest))
      else String c (escape_quotes rest)
  end.

(** Reading an OData string literal back: a doubled quote is one quote. *)
Fixpoint unescape_quotes (s : string) : string :=
  match s with
  | EmptyString => EmptyString
  | String c rest =>
      match rest with
      | String c' rest' =>
          if Ascii.eqb c "'"%char && Ascii.eqb c' "'"%char
          then String "'" (unescape_quotes rest')
          else String c (unescape_quotes rest)
      | EmptyString => String c EmptyString
      end
  end.

Fixpoint count_quotes (s : string) : nat :=
  match s with
  | EmptyString => 0
  | String c rest => (if Ascii.eqb c "'"%char then 1 else 0) + count_quotes rest
  end.

Record Candidate : Type := {
  label : string;
  url : string;
  raw : string
}.

Record Found : Type := {
  meeting : JSValue;
  used : JSValue;
  tried : JSValue
}.

Section Lookup.

Variable P : Platform.

Definition v1_raw (organizerUserId : JSValue) (safeUrl : string) : string :=
  "https://graph.microsoft.com/v1.0/users/" ++ js_to_string P organizerUserId
    ++ "/onlineMeetings?$filter=joinWebUrl eq '" ++ safeUrl ++ "'".

Definition beta_raw (organizerUserId : JSValue) (safeUrl : string) : string :=
  "https://graph.microsoft.com/beta/users/" ++ js_to_string P organizerUserId
    ++ "/onlineMeetings?$filter=JoinWebUrl eq '" ++ safeUrl ++ "'".

(** The [candidates] array; building it encodes the escaped link, which can
    raise. *)
Definition candidates (organizerUserId joinWebUrl : JSValue) : option (list Candidate) :=
  let safeUrl := escape_quotes (js_to_string P joinWebUrl) in
  match encodeURIComponent P (JStr safeUrl) with
  | None => None
  | Some encoded =>
      Some [ {| label := "v1.0 joinWebUrl";
                url := v1_raw organizerUserId encoded;
                raw := v1_raw organizerUserId safeUrl |};
             {| label := "beta JoinWebUrl";
                url := beta_raw organizerUserId safeUrl;
                raw := beta_raw organizerUserId safeUrl |} ]
  end.

(** The [for] loop over the candidates: the raw URL first; the encoded one
    only when the raw request was rejected and the two differ; the next
    candidate when neither gave a first match. *)
Fixpoint attempts (cs : list Candidate) (nothing : Found) : Prog Found :=
  match cs with
  | [] => Ret nothing
  | c :: rest =>
      Await (HttpGet (raw c))
        (fun settled =>
           match settled with
           | Fulfilled data =>
               let meeting := index0 (prop data "value") in
               if truthy meeting then
                 Ret {| meeting := meeting; used := JStr (label c); tried := JStr (raw c) |}
               else attempts rest nothing
           | Rejected _ =>
               if truthy (JStr (url c)) && negb (url c =? raw c) then
                 Await (HttpGet (url c))
                   (fun settled2 =>
                      match settled2 with
                      | Fulfilled data2 =>
                          let meeting2 := index0 (prop data2 "value") in
                          if truthy meeting2 then
                            Ret {| meeting := meeting2; used := JStr (label c);
                                   tried := JStr (url c) |}
                          else attempts rest nothing
                      | Rejected _ => attempts rest nothing
                      end)
               else attempts rest nothing
           end)
  end.

Definition findOnlineMeeting (token organizerUserId joinWebUrl : JSValue) : Prog Found :=
  match candidates organizerUserId joinWebUrl with
  | None => Throw (runtime_error "URI malformed")
  | Some cs =>
      attempts cs {| meeting := JNull; used := JNull;
                     tried := JArr (map (fun c => JStr (raw c)) cs) |}
  end.

End Lookup.

End FallbackLookup.

(** X19.  Doubling the quotes of a link is undone by reading doubled quotes
    as one, so two different links never give the same filter literal; the
    escaped link is longer by its number of quotes, and a link without
    quotes is left as it is. *)
Theorem escape_quotes_reads_back :
  (forall s, FallbackLookup.unescape_quotes (FallbackLookup.escape_quotes s) = s)
  /\ (forall s1 s2, FallbackLookup.escape_quotes s1 = FallbackLookup.escape_quotes s2 -> s1 = s2)
  /\ (forall s, String.length (FallbackLookup.escape_quotes s)
                = String.length s + FallbackLookup.count_quotes s)
  /\ (forall s, FallbackLookup.count_quotes s = 0 -> FallbackLookup.escape_quotes s = s).
Proof.
  assert (Hback : forall s, FallbackLookup.unescape_quotes (FallbackLookup.escape_quotes s) = s).
  { induction s as [| c rest IH]; [reflexivity |].
    cbn [FallbackLookup.escape_quotes].
    destruct (Ascii.eqb c "'"%char) eqn:Hc.
    - apply Ascii.eqb_eq in Hc. subst c.
      cbn [FallbackLookup.unescape_quotes]. simpl Ascii.eqb. simpl andb. cbv iota.
      now rewrite IH.
    - cbn [FallbackLookup.unescape_quotes].
      destruct (FallbackLookup.escape_quotes rest) as [| c' rest'] eqn:Hrest.
      + simpl in IH. now rewrite <- IH.
      + rewrite Hc. simpl andb. cbv iota. now rewrite IH. }
  split; [exact Hback | split; [| split]].
  - intros s1 s2 H. rewrite <- (Hback s1), <- (Hback s2). now rewrite H.
  - induction s as [| c rest IH]; [reflexivity |]. simpl.
    destruct (Ascii.eqb c "'"%char); simpl; rewrite IH; lia.
  - induction s as [| c rest IH]; [reflexivity |]. simpl.
    destruct (Ascii.eqb c "'"%char); simpl; [discriminate |]. intros H. now rewrite IH.
Qed.



(* ================================================================== *)
(** ** The build before the guard: lobby join only *)
(* ================================================================== *)

(** Build ["2026-02-22-remove-top-v1"]: the organizer may come with the
    request, the meeting is joined by its [joinMeetingId] or not at all,
    there is no guard, and the hangup does not look at the shape of the
    [callId].  The organizer extraction and the lookup are the ones of the
    current build. *)
Module LobbyOnly.

Section Handlers.

Variable P : Platform.
Variable env : Env.

Definition payload (found_meeting : JSValue) : JSValue :=
  let joinMeetingId := prop (prop found_meeting "joinMeetingIdSettings") "joinMeetingId" in
  let passcode := js_coalesce (prop (prop found_meeting "joinMeetingIdSettings") "passcode") JNull in
  JObj [("@odata.type", JStr "#microsoft.graph.call");
        ("callbackUri", CALLING_CALLBACK_URI env);
        ("requestedModalities", JArr [JStr "audio"]);
        ("mediaConfig", JObj [("@odata.type", JStr "#microsoft.graph.serviceHostedMediaConfig")]);
        ("meetingInfo", JObj [("@odata.type", JStr "#microsoft.graph.joinMeetingIdMeetingInfo");
                              ("joinMeetingId", joinMeetingId);
                              ("passcode", passcode)]);
        ("tenantId", TENANT_ID env)].

(** The organizer of a join: the one of the request when it is truthy, else
    the one of the link. *)
Definition organizer_of (body : JSValue) : JSValue :=
  let supplied := prop (js_or body (JObj [])) "organizerUserId" in
  if negb (truthy supplied) then tryExtractOrganizerOid P (prop (js_or body (JObj [])) "joinWebUrl")
  else supplied.

Definition join (body : JSValue) : Prog Response :=
  try_catch
    (let joinWebUrl := prop (js_or body (JObj [])) "joinWebUrl" in
     if negb (truthy joinWebUrl) then
       Ret (Json 400 (JObj [("error", JStr "Missing joinWebUrl (Teams meeting join link).")]))
     else
       let organizerUserId := organizer_of body in
       if negb (truthy organizerUserId) then
         Ret (Json 400
                (JObj [("error",
                        JStr "Missing organizerUserId and could not extract Oid from joinWebUrl context. Provide organizerUserId explicitly.")]))
       else
         token <- getGraphToken ;;
         found <- findOnlineMeeting P token organizerUserId joinWebUrl ;;
         if negb (truthy (meeting found)) then
           Ret (Json 404
                  (JObj [("error",
                          JStr "Online meeting not found for this organizerUserId + joinWebUrl. Common causes: organizerUserId not correct, the meeting isn't under this organizer, or app access policy/admin consent not applied.");
                         ("tried", JArr [JStr (tried found)]);
                         ("lookupError", js_or (error found) JNull);
                         ("organizerUserIdUsed", organizerUserId)]))
         else
           let threadId := prop (prop (meeting found) "chatInfo") "threadId" in
           if negb (truthy threadId) then
             Ret (Json 400
                    (JObj [("error",
                            JStr "Online meeting found, but chatInfo.threadId is missing. Cannot join scheduled meeting without threadId.");
                           ("meetingId", prop (meeting found) "id")]))
           else
             let joinMeetingId :=
               prop (prop (meeting found) "joinMeetingIdSettings") "joinMeetingId" in
             if negb (truthy joinMeetingId) then
               Ret (Json 400
                      (JObj [("error",
                              JStr "joinMeetingIdSettings.joinMeetingId is missing from onlineMeeting. Cannot join via joinMeetingIdMeetingInfo.")]))
             else
               callResp_data <- await (HttpPost createCallUrl (payload (meeting found))) ;;
               Ret (Json 200
                      (JObj [("ok", JBool true);
                             ("organizerUserIdUsed", organizerUserId);
                             ("meeting", JObj [("id", prop (meeting found) "id");
                                               ("subject", js_or (prop (meeting found) "subject") JNull);
                                               ("threadId", threadId)]);
                             ("call", callResp_data)])))
    (respond_500).

Definition hangup (callId : string) : Prog Response :=
  try_catch
    (token <- getGraphToken ;;
     await (HttpDelete (callUrl callId)) ;;
     Ret (Json 200 (JObj [("ok", JBool true); ("callId", JStr callId)])))
    (respond_500).

End Handlers.

End LobbyOnly.

Definition is_guard_event (ev : Event) : bool :=
  match ev with
  | EvRequest _ _ => false
  | _ => true
  end.

Ltac all_lobby_runs :=
  unfold LobbyOnly.join, LobbyOnly.hangup, findOnlineMeeting, getGraphToken, await,
    respond_500 in *;
  repeat (simpl; try split_run).



(** The requests of a run, without the operations on the guard. *)
Definition requests (evs : list Event) : list Event :=
  filter (fun ev => negb (is_guard_event ev)) evs.

(** X22.  The hangup of the lobby-only build sends the DELETE for any
    [callId] once the token is granted, whatever its shape, and has no guard
    to release.  On a GUID-shaped [callId] the current build makes the same
    requests and gives the same answer; on any other [callId] the current
    build makes no request at all. *)
Theorem hangup_across_builds (P : Platform) (w : World) (g : Guard) (n : nat) (callId : string) :
  let before := run (LobbyOnly.hangup callId) w g n in
  let now := run (hangup P callId) w g n in
  guard_after before = g
  /\ (forall token,
         w n GetToken = Fulfilled token ->
         events before = [EvRequest GetToken (Fulfilled token);
                          EvRequest (HttpDelete (callUrl callId))
                                    (w (S n) (HttpDelete (callUrl callId)))])
  /\ (isGuid P (JStr callId) = true ->
      result now = result before
      /\ requests (events now) = events before
      /\ clock_after now = clock_after before)
  /\ (isGuid P (JStr callId) = false -> events now = []).
Proof.
  intros before now. subst before now.
  unfold LobbyOnly.hangup, hangup, getGraphToken, await, respond_500, activeCalls_release.
  split; [| split; [| split]].
  - simpl. destruct (w n GetToken); simpl; [| reflexivity].
    destruct (w (S n) (HttpDelete (callUrl callId))); reflexivity.
  - intros token Htok. simpl. rewrite Htok. simpl.
    destruct (w (S n) (HttpDelete (callUrl callId))); reflexivity.
  - intros Hguid. rewrite Hguid. simpl.
    destruct (w n GetToken); simpl; [| repeat split].
    destruct (w (S n) (HttpDelete (callUrl callId))); repeat split.
  - intros Hguid. rewrite Hguid. reflexivity.
Qed.

Lemma hangup_across_builds_witness :
  events (run (LobbyOnly.hangup "../users") Sample.world_ok Sample.guard_T1 0)
  = [EvRequest GetToken (Fulfilled (JStr "token"));
     EvRequest (HttpDelete "https://graph.microsoft.com/v1.0/communications/calls/../users")
               (Fulfilled JUndefined)]
  /\ events (run (hangup Sample.platform "../users") Sample.world_ok Sample.guard_T1 0) = []
  /\ result (run (hangup Sample.platform Sample.call_id) Sample.world_ok Sample.guard_T1 0)
     = result (run (LobbyOnly.hangup Sample.call_id) Sample.world_ok Sample.guard_T1 0).
Proof.
  split; [| split].
  - exact (proj1 (proj2 (hangup_across_builds Sample.platform Sample.world_ok Sample.guard_T1 0
                           "../users"))
                 (JStr "token") eq_refl).
  - exact (proj2 (proj2 (proj2 (hangup_across_builds Sample.platform Sample.world_ok
                                  Sample.guard_T1 0 "../users")))
                 eq_refl).
  - exact (proj1 (proj1 (proj2 (proj2 (hangup_across_builds Sample.platform Sample.world_ok
                                         Sample.guard_T1 0 Sample.call_id)))
                        eq_refl)).
Defined.



(* ================================================================== *)
(** ** The first server: a join that does not use the link *)
(* ================================================================== *)

(** [server.js]: the join route destructures [req.body] without a default
    and posts a placeholder payload. *)
Module Stub.

Definition join (body : JSValue) : Prog Response :=
  try_catch
    (if nullish body then
       Throw (runtime_error
                ("Cannot destructure property 'joinUrl' of 'req.body' as it is "
                   ++ match body with JNull => "null" | _ => "undefined" end ++ "."))
     else
       let joinUrl := prop body "joinUrl" in
       if negb (truthy joinUrl) then
         Ret (Json 400 (JObj [("error", JStr "Missing joinUrl")]))
       else
         token <- getGraphToken ;;
         data <- await (HttpPost createCallUrl (JObj [])) ;;
         Ret (Json 200 (JObj [("ok", JBool true); ("graph", data)])))
    (fun e => Ret (Json 500 (JObj [("error", diagnostic e)]))).

End Stub.

(** X24.  The join of the first server does not depend on the link it is
    given: any two requests with a truthy [joinUrl] run alike, and what is
    posted is the empty object.  A request without a body is answered 500,
    not 400, before any request is made, and a body without [joinUrl] is
    answered 400. *)
Theorem stub_join_ignores_link (w : World) (g : Guard) (n : nat) :
  (forall body body',
      truthy (prop body "joinUrl") = true ->
      truthy (prop body' "joinUrl") = true ->
      run (Stub.join body) w g n = run (Stub.join body') w g n)
  /\ (forall body url posted settled,
         In (EvRequest (HttpPost url posted) settled) (events (run (Stub.join body) w g n)) ->
         url = createCallUrl /\ posted = JObj [])
  /\ (forall body,
         nullish body = true ->
         exists message,
           run (Stub.join body) w g n
           = {| result := Normal (Json 500 (JObj [("error", JStr message)]));
                guard_after := g; clock_after := n; events := [] |})
  /\ (forall body,
         nullish body = false -> truthy (prop body "joinUrl") = false ->
         run (Stub.join body) w g n
         = {| result := Normal (Json 400 (JObj [("error", JStr "Missing joinUrl")]));
              guard_after := g; clock_after := n; events := [] |}).
Proof.
  assert (Hbody : forall body, truthy (prop body "joinUrl") = true -> nullish body = false).
  { intros body H. destruct body; simpl in *; try discriminate; reflexivity. }
  split; [| split; [| split]].
  - intros body body' H H'. unfold Stub.join.
    rewrite (Hbody body H), (Hbody body' H'), H, H'. reflexivity.
  - intros body url posted settled. unfold Stub.join, getGraphToken, await.
    repeat (simpl; try split_run); intros H;
      repeat match type of H with
             | _ \/ _ => destruct H as [H | H]
             | False => destruct H
             end;
      try discriminate H; injection H as <- <- _; split; reflexivity.
  - intros body Hnull. unfold Stub.join. rewrite Hnull. simpl.
    unfold diagnostic. simpl. eexists. reflexivity.
  - intros body Hnull Hmissing. unfold Stub.join. rewrite Hnull, Hmissing. reflexivity.
Qed.

Lemma stub_join_witness :
  run (Stub.join (JObj [("joinUrl", JStr Sample.link_guid)])) Sample.world_ok empty_guard 0
  = run (Stub.join (JObj [("joinUrl", JStr Sample.link_short)])) Sample.world_ok empty_guard 0.
Proof.
  exact (proj1 (stub_join_ignores_link Sample.world_ok empty_guard 0)
               (JObj [("joinUrl", JStr Sample.link_guid)])
               (JObj [("joinUrl", JStr Sample.link_short)]) eq_refl eq_refl).
Defined.

(* ================================================================== *)
(** ** One resolver and one lookup for two handlers *)
(* ================================================================== *)



(* ================================================================== *)
(** ** The guard under overlapping requests *)
(* ================================================================== *)

(** What is left of a handler writes to the guard only under a truthy key,
    however its requests settle and whatever it finds in the guard. *)
Fixpoint registers_threads {A : Type} (p : Prog A) : Prop :=
  match p with
  | Ret _ | Throw _ => True
  | Await _ k => forall settled, registers_threads (k settled)
  | MapHas _ k => forall present, registers_threads (k present)
  | MapGet _ k => forall stored, registers_threads (k stored)
  | MapSet key _ k => truthy key = true /\ registers_threads k
  | MapRelease _ k => registers_threads k
  end.

Definition truthy_keys (g : Guard) : Prop :=
  forall threadId callId, In (threadId, callId) g -> truthy threadId = true.

Lemma map_set_truthy (g : Guard) (key val : JSValue) :
  truthy_keys g -> truthy key = true -> truthy_keys (map_set g key val).
Proof.
  intros Hg Hkey threadId callId Hin.
  destruct (map_set_entries g key val threadId callId Hin) as [[v0 Hv0] | [-> _]].
  - exact (Hg threadId v0 Hv0).
  - exact Hkey.
Qed.

Lemma release_call_truthy (g : Guard) (callId : JSValue) :
  truthy_keys g -> truthy_keys (release_call g callId).
Proof.
  intros Hg threadId value Hin. apply (Hg threadId value).
  exact (release_call_entries g callId (threadId, value) Hin).
Qed.

Lemma advance_registers {A : Type} (p : Prog A) :
  forall g,
    registers_threads p -> truthy_keys g ->
    registers_threads (fst (advance p g)) /\ truthy_keys (snd (advance p g)).
Proof.
  induction p as [a | e | r k IH | key k IH | key k IH | key val k IH | callId k IH];
    intros g Hp Hg; simpl in *; auto.
  - destruct Hp as [Hkey Hk]. apply IH; [exact Hk | now apply map_set_truthy].
  - apply IH; [exact Hp | now apply release_call_truthy].
Qed.

Lemma route_registers_threads (P : Platform) (env : Env) (op : Operation) :
  registers_threads (route P env op).
Proof.
  destruct op; open_handlers; repeat (simpl; intros; try split_run); repeat split; auto.
Qed.

(** X26.  When requests overlap (a handler runs up to an [await] and others
    run before it resumes), every entry of the guard still stands under a
    truthy [threadId], no two entries have the same key, and the guard holds
    at most one entry for any [threadId]: of two overlapping joins of one
    meeting that both create a call, the one that registers last replaces
    the entry of the other. *)
Theorem overlapping_guard_holds_threads_once (P : Platform) (env : Env) (s : Process) :
  process_reachable P env s ->
  truthy_keys (shared s)
  /\ distinct_keys (shared s)
  /\ (forall threadId, List.length (entries_for (shared s) threadId) <= 1)
  /\ Forall registers_threads (in_flight s).
Proof.
  intros Hreach.
  destruct (overlapping_guard_one_entry_per_thread P env s Hreach) as [Hdistinct Hone].
  assert (Hinv : truthy_keys (shared s) /\ Forall registers_threads (in_flight s)).
  { clear Hdistinct Hone.
    induction Hreach as [| s s' _ [Hkeys Hflight] Hstep]; simpl.
    - split; [intros threadId callId [] | constructor].
    - destruct Hstep as [s op p g Hadv | s before r k after settled p g Hat Hadv]; simpl.
      + destruct (advance_registers (route P env op) (shared s)
                    (route_registers_threads P env op) Hkeys) as [Hp Hg].
        rewrite Hadv in Hp, Hg. simpl in Hp, Hg. split; [exact Hg | now constructor].
      + rewrite Hat in Hflight. apply Forall_app in Hflight.
        destruct Hflight as [Hbefore Hrest].
        inversion Hrest as [| ? ? Hawait Hafter]; subst.
        destruct (advance_registers (k settled) (shared s) (Hawait settled) Hkeys) as [Hp Hg].
        rewrite Hadv in Hp, Hg. simpl in Hp, Hg. split; [exact Hg |].
        apply Forall_app. split; [exact Hbefore | now constructor]. }
  destruct Hinv as [Hkeys Hflight]. repeat split; assumption.
Qed.

(** Two joins of the meeting of thread ["T1"] that overlap: both pass the
    check, both create a call, ["call-A"] and then ["call-B"], and both
    answer 200; the guard is left with the call of the join that registered
    last. *)
Definition joined (call : JSValue) : Prog Response :=
  Ret (Json 200 (JObj [("ok", JBool true);
                       ("organizerUserIdUsed", JStr Sample.organizer_guid);
                       ("meeting", JObj [("id", JStr "M1");
                                         ("subject", JStr "Weekly");
                                         ("threadId", JStr "T1")]);
                       ("call", call)])).

Definition joined_twice : Process :=
  {| shared := [(JStr "T1", JStr "call-B")];
     in_flight := [joined (JObj [("id", JStr "call-B")]);
                   joined (JObj [("id", JStr "call-A")])] |}.

Lemma overlapping_joins_both_register :
  process_reachable Sample.platform Sample.env joined_twice.
Proof.
  pose (found := Fulfilled (JObj [("value", JArr [Sample.meeting_lobby])])).
  pose (token := Fulfilled (JStr "token")).
  pose (call_A := Fulfilled (JObj [("id", JStr "call-A")])).
  pose (call_B := Fulfilled (JObj [("id", JStr "call-B")])).
  unfold joined_twice, joined.
  eapply process_next.
  { eapply process_next.
    { eapply process_next.
      { eapply process_next.
        { eapply process_next.
          { eapply process_next.
            { eapply process_next.
              { eapply process_next; [apply process_start |].
                apply (step_arrive _ _ _ (OpJoin (JStr "secret") Sample.body_guid)).
                vm_compute. reflexivity. }
              simpl.
              eapply (step_settle _ _ _ [] _ _ [] token); [reflexivity |].
              vm_compute. reflexivity. }
            simpl.
            eapply (step_settle _ _ _ [] _ _ [] found); [reflexivity |].
            vm_compute. reflexivity. }
          simpl.
          apply (step_arrive _ _ _ (OpJoin (JStr "secret") Sample.body_guid)).
          vm_compute. reflexivity. }
        simpl.
        eapply (step_settle _ _ _ [] _ _ [_] token); [reflexivity |].
        vm_compute. reflexivity. }
      simpl.
      eapply (step_settle _ _ _ [] _ _ [_] found); [reflexivity |].
      vm_compute. reflexivity. }
    simpl.
    eapply (step_settle _ _ _ [_] _ _ [] call_A); [reflexivity |].
    vm_compute. reflexivity. }
  simpl.
  eapply (step_settle _ _ _ [] _ _ [_] call_B); [reflexivity |].
  vm_compute. reflexivity.
Defined.

Lemma overlapping_guard_witness :
  truthy_keys (shared joined_twice)
  /\ distinct_keys (shared joined_twice)
  /\ (forall threadId, List.length (entries_for (shared joined_twice) threadId) <= 1)
  /\ Forall registers_threads (in_flight joined_twice).
Proof.
  exact (overlapping_guard_holds_threads_once Sample.platform Sample.env joined_twice
           overlapping_joins_both_register).
Defined.
